(** * Persona service (app/services/persona_service.py)

    A shallow embedding of the service layer of the CRUD application and of
    the part of the storage engine it relies on: one table of [Persona] rows
    with an integer primary key and a uniqueness constraint on the email
    column.  Python integers are [Z], Python strings are [string], the
    count dictionary of the domain statistics is a [gmap string Z], and the
    table is the list of its rows in the engine's natural (insertion) order.
    Every operation takes the table and returns its outcome (a value or a
    raised exception) together with the table it leaves behind. *)

From Stdlib Require Import ZArith String Ascii Lia.
From stdpp Require Import gmap strings list pretty.

Local Open Scope Z_scope.

(** ** Data model *)

(** [datetime.date]: only the three fields the service reads. *)
Record date := Date { year : Z; month : Z; day : Z }.

(** Modelled from the spec: the [Persona] model of [app/models/persona.py],
    which the service imports; these are its mapped columns other than the
    primary key, named as the service names them.  The email is read as
    [None] when the attribute holds no string, the case that
    [get_stats_dominios] guards with [except AttributeError]. *)
Record PersonaData := mkData {
  first_name : string;
  last_name : string;
  email : option string;
  phone : option string;
  birth_date : option date;
  is_active : bool;
  notes : option string
}.

(** A persisted row: the engine-assigned identifier and the columns. *)
Record Persona := mkPersona { p_id : Z; p_data : PersonaData }.

Definition p_email (p : Persona) : option string := email (p_data p).
Definition p_birth_date (p : Persona) : option date := birth_date (p_data p).

(** Modelled from the spec: [PersonaCreate] of [app/views/persona.py], the
    request body of a create, with the fields [create_persona] reads; the
    email is a string. *)
Record PersonaCreate := mkCreate {
  c_first_name : string;
  c_last_name : string;
  c_email : string;
  c_phone : option string;
  c_birth_date : option date;
  c_is_active : bool;
  c_notes : option string
}.

(** Modelled from the spec: [PersonaUpdate] of [app/views/persona.py], the
    request body of a partial update; [None] is a field that was not set,
    which [model_dump(exclude_unset=True)] leaves out of the dictionary. *)
Record PersonaUpdate := mkUpdate {
  u_first_name : option string;
  u_last_name : option string;
  u_email : option string;
  u_phone : option (option string);
  u_birth_date : option (option date);
  u_is_active : option bool;
  u_notes : option (option string)
}.

(** Modelled from the spec: the two domain errors of
    [app/services/errors.py]; with them SQLAlchemy's [IntegrityError], the
    third exception that can leave the service. *)
Inductive error := PersonaNotFoundError | EmailAlreadyExistsError | IntegrityError.

(** The exceptions caught inside [get_stats_dominios]. *)
Inductive pyexc := IndexError | AttributeError.

Abbreviation DB := (list Persona).
Abbreviation outcome A := (error + A)%type.

#[global] Instance date_eq_dec : EqDecision date.
Proof. solve_decision. Defined.
#[global] Instance PersonaData_eq_dec : EqDecision PersonaData.
Proof. solve_decision. Defined.
#[global] Instance Persona_eq_dec : EqDecision Persona.
Proof. solve_decision. Defined.
#[global] Instance error_eq_dec : EqDecision error.
Proof. solve_decision. Defined.

(** ** Python built-ins used by the service *)

(** [s.split(sep)] for a one-character separator. *)
Fixpoint split (sep : ascii) (s : string) : list string :=
  match s with
  | EmptyString => [EmptyString]
  | String c s' =>
      if Ascii.eqb c sep then EmptyString :: split sep s'
      else match split sep s' with
           | [] => [String c EmptyString]
           | w :: ws => String c w :: ws
           end
  end.

(** [(a, b) < (c, d)] on pairs of integers. *)
Definition tuple_lt (x y : Z * Z) : bool :=
  (x.1 <? y.1) || ((x.1 =? y.1) && (x.2 <? y.2)).

(** [sum(l)], [min(l)], [max(l)]; the last two are only called on a list
    that is not empty. *)
Definition py_sum (l : list Z) : Z := foldl Z.add 0 l.
Definition py_min (l : list Z) : Z :=
  match l with [] => 0 | x :: xs => foldl Z.min x xs end.
Definition py_max (l : list Z) : Z :=
  match l with [] => 0 | x :: xs => foldl Z.max x xs end.

(** [random.choice(l)]: the element at a random index below [len(l)]; the
    random number is the argument [r]. *)
Definition choice {A} (l : list A) (r : nat) (d : A) : A :=
  nth (r mod length l)%nat l d.

(** ** The storage engine *)

(** The primary key given to the next inserted row. *)
Definition next_id (db : DB) : Z := 1 + foldr Z.max 0 (p_id <$> db).

(** [query.filter(...).first()]. *)
Definition first (l : list Persona) : option Persona := head l.

(** Modelled from the spec: the uniqueness constraint on the email column,
    which [app/models/persona.py] declares and the comments of
    [create_persona] rely on.  For a row whose primary key is [i] it fails
    when some other row holds the same string; rows without an email never
    clash. *)
Definition email_conflict (i : Z) (e : option string) (db : DB) : bool :=
  match e with
  | None => false
  | Some s => bool_decide (Exists (λ p, p_email p = Some s ∧ p_id p ≠ i) db)
  end.

(** INSERT of one row: refused with [IntegrityError] when the constraint
    fails, otherwise the row is appended under a fresh primary key. *)
Definition insert_row (d : PersonaData) (db : DB) : outcome (Persona * DB) :=
  let obj := mkPersona (next_id db) d in
  if email_conflict (p_id obj) (email d) db then inl IntegrityError
  else inr (obj, db ++ [obj]).

(** [db.add_all(objs); db.commit()]: the rows are inserted in order inside
    one transaction, which is lost as a whole at the first refusal. *)
Fixpoint insert_all (objs : list PersonaData) (db : DB) : outcome DB :=
  match objs with
  | [] => inr db
  | d :: ds =>
      match insert_row d db with
      | inl e => inl e
      | inr (_, db') => insert_all ds db'
      end
  end.

(** UPDATE of the row with the primary key of [obj]. *)
Definition update_row (obj : Persona) (db : DB) : outcome DB :=
  if email_conflict (p_id obj) (p_email obj) db then inl IntegrityError
  else inr ((λ p, if decide (p_id p = p_id obj) then obj else p) <$> db).

(** DELETE of the row with primary key [i]. *)
Definition delete_row (i : Z) (db : DB) : DB := filter (λ p, p_id p ≠ i) db.

(** [query.filter(cond).delete()]: a bulk DELETE, which reports the number
    of rows it matched; a query with no filter matches every row. *)
Definition query_delete (cond : Persona → bool) (db : DB) : Z * DB :=
  (Z.of_nat (length (filter (λ p, cond p = true) db)),
   filter (λ p, cond p ≠ true) db).

(** ** LIKE, the operator behind [Column.contains]

    SQLAlchemy renders [column.contains(term)] as
    [column LIKE '%' || term || '%'] and leaves the term as it is (no
    [autoescape]), so a [%] in the term stands for any run of characters
    and a [_] for any single character; no escape character is in force,
    as in standard SQL without an ESCAPE clause.  How two ordinary
    characters compare (with or without case) is the engine's choice and
    is the parameter [chr_eq]. *)

Fixpoint like (chr_eq : ascii → ascii → bool) (pat : string) : string → bool :=
  match pat with
  | EmptyString => λ s, match s with EmptyString => true | String _ _ => false end
  | String c pat' =>
      if Ascii.eqb c "%" then
        fix any (s : string) : bool :=
          like chr_eq pat' s
          || match s with EmptyString => false | String _ s' => any s' end
      else if Ascii.eqb c "_" then
        λ s, match s with EmptyString => false | String _ s' => like chr_eq pat' s' end
      else
        λ s, match s with
             | EmptyString => false
             | String d s' => chr_eq c d && like chr_eq pat' s'
             end
  end.

(** A comparison on a nullable column is NULL on a NULL; [or_] is the
    three-valued disjunction, and a row is selected when the condition is
    true. *)
Definition sql_contains (chr_eq : ascii → ascii → bool)
    (col : option string) (term : string) : option bool :=
  (λ s, like chr_eq ("%" +:+ term +:+ "%") s) <$> col.

Definition sql_or (a b : option bool) : option bool :=
  match a, b with
  | Some true, _ | _, Some true => Some true
  | Some false, Some false => Some false
  | _, _ => None
  end.

Definition sql_true (a : option bool) : bool := default false a.

(** Two engines: exact comparison of characters, and SQLite's LIKE, which
    ignores the case of ASCII letters. *)
Definition chr_eq_exact : ascii → ascii → bool := Ascii.eqb.

Definition ascii_lower (c : ascii) : ascii :=
  let n := nat_of_ascii c in
  if ((65 <=? n) && (n <=? 90))%nat then ascii_of_nat (n + 32) else c.

Definition chr_eq_nocase (a b : ascii) : bool :=
  Ascii.eqb (ascii_lower a) (ascii_lower b).

(** [str.lower] on ASCII text. *)
Fixpoint lower_ascii (s : string) : string :=
  match s with
  | EmptyString => EmptyString
  | String c s' => String (ascii_lower c) (lower_ascii s')
  end.

(** What the term-occurs-as-a-substring reading of a search means: the term
    matches, character by character, at some position of the field. *)
Fixpoint starts_with (chr_eq : ascii → ascii → bool) (t s : string) : bool :=
  match t, s with
  | EmptyString, _ => true
  | String _ _, EmptyString => false
  | String c t', String d s' => chr_eq c d && starts_with chr_eq t' s'
  end.

Fixpoint occurs_in (chr_eq : ascii → ascii → bool) (t s : string) : bool :=
  starts_with chr_eq t s
  || match s with EmptyString => false | String _ s' => occurs_in chr_eq t s' end.

Fixpoint no_wildcard (t : string) : bool :=
  match t with
  | EmptyString => true
  | String c t' => negb (Ascii.eqb c "%") && negb (Ascii.eqb c "_") && no_wildcard t'
  end.

(** ** Faker and [random]

    What the generator hands out during one iteration of the loop of
    [poblar_personas]: the values of the [fake.*] calls and the random
    numbers behind the three [random.choice] calls. *)
Record Fake := mkFake {
  fk_first_name : string;
  fk_last_name : string;
  rnd_dominio : nat;
  fk_phone_number : string;
  fk_date_of_birth : date;
  rnd_is_active : nat;
  fk_sentence : string;
  rnd_notes : nat
}.

Definition dominios_validos : list string :=
  ["gmail.com"; "outlook.com"; "yahoo.com"; "hotmail.com"]%string.

(** The result of [get_stats_edad]. *)
Record StatsEdad := mkStats {
  edad_promedio : Z;
  edad_minima : Z;
  edad_maxima : Z
}.

(** ** The service *)

Section Service.

(** The engine's comparison of characters inside LIKE, and [str.lower]. *)
Variable chr_eq : ascii → ascii → bool.
Variable lower : string → string.

(** [create_persona] (lines 15-37): the optimistic check, then the insert,
    whose [IntegrityError] is turned into the domain error after the
    rollback. *)
Definition create_persona (payload : PersonaCreate) (db : DB)
    : outcome Persona * DB :=
  match first (filter (λ p, p_email p = Some (c_email payload)) db) with
  | Some _ => (inl EmailAlreadyExistsError, db)
  | None =>
      let obj := mkData (c_first_name payload) (c_last_name payload)
                   (Some (c_email payload)) (c_phone payload)
                   (c_birth_date payload) (c_is_active payload)
                   (c_notes payload) in
      match insert_row obj db with
      | inl _ => (inl EmailAlreadyExistsError, db)
      | inr (obj', db') => (inr obj', db')
      end
  end.

(** The body of the loop of [poblar_personas] (lines 46-59). *)
Definition fake_persona (f : Fake) : PersonaData :=
  let first_name := fk_first_name f in
  let last_name := fk_last_name f in
  let dominio := choice dominios_validos (rnd_dominio f) "" in
  let email := lower first_name +:+ "." +:+ lower last_name +:+ "@" +:+ dominio in
  mkData first_name last_name (Some email) (Some (fk_phone_number f))
    (Some (fk_date_of_birth f))
    (choice [true; false] (rnd_is_active f) false)
    (choice [Some (fk_sentence f); None] (rnd_notes f) None).

(** [poblar_personas] (lines 40-64); [fake i] is what the generator hands
    out in iteration [i].  The [IntegrityError] of the commit is not caught
    here; the transaction is lost and the table stays as it was. *)
Definition poblar_personas (fake : nat → Fake) (cantidad : Z) (db : DB)
    : outcome Z * DB :=
  let registros :=
    foldl (λ registros i, registros ++ [fake_persona (fake i)]) []
      (seq 0 (Z.to_nat cantidad)) in
  match insert_all registros db with
  | inl e => (inl e, db)
  | inr db' => (inr (Z.of_nat (length registros)), db')
  end.

(** The [try] block of [get_stats_dominios] (lines 73-74 for the domain):
    [None.split] raises [AttributeError], a split without element 1 raises
    [IndexError]. *)
Definition dominio_de (p : Persona) : pyexc + string :=
  match p_email p with
  | None => inl AttributeError
  | Some e =>
      match split "@" e !! 1%nat with
      | None => inl IndexError
      | Some dominio => inr dominio
      end
  end.

(** [get_stats_dominios] (lines 66-77); both exceptions are caught and the
    row is passed over. *)
Definition get_stats_dominios (db : DB) : gmap string Z :=
  foldl (λ conteo p,
           match dominio_de p with
           | inr dominio => <[dominio := default 0 (conteo !! dominio) + 1]> conteo
           | inl _ => conteo
           end) ∅ db.

(** Line 90: the boolean of the comparison of the pairs is subtracted as
    0 or 1. *)
Definition edad (hoy b : date) : Z :=
  year hoy - year b
  - (if tuple_lt (month hoy, day hoy) (month b, day b) then 1 else 0).

(** The loop of lines 87-91. *)
Definition edades_de (hoy : date) (personas : DB) : list Z :=
  foldl (λ edades p,
           match p_birth_date p with
           | Some b => edades ++ [edad hoy b]
           | None => edades
           end) [] personas.

(** [get_stats_edad] (lines 79-100); [hoy] is [date.today()]. *)
Definition get_stats_edad (hoy : date) (db : DB) : StatsEdad :=
  match db with
  | [] => mkStats 0 0 0
  | _ =>
      let edades := edades_de hoy db in
      match edades with
      | [] => mkStats 0 0 0
      | _ => mkStats (py_sum edades `div` Z.of_nat (length edades))
               (py_min edades) (py_max edades)
      end
  end.

(** The condition of the filter of [search_personas] (lines 105-109); the
    two name columns always hold a string. *)
Definition search_cond (termino : string) (p : Persona) : bool :=
  sql_true
    (sql_or (sql_contains chr_eq (Some (first_name (p_data p))) termino)
       (sql_or (sql_contains chr_eq (Some (last_name (p_data p))) termino)
          (sql_contains chr_eq (p_email p) termino))).

(** [search_personas] (lines 102-110). *)
Definition search_personas (termino : string) (db : DB) : list Persona :=
  filter (λ p, search_cond termino p = true) db.

(** [get_persona] (lines 116-121). *)
Definition get_persona (persona_id : Z) (db : DB) : outcome Persona :=
  match first (filter (λ p, p_id p = persona_id) db) with
  | None => inl PersonaNotFoundError
  | Some obj => inr obj
  end.

(** The [setattr] loop over the fields that were set (lines 135-136). *)
Definition setattrs (data : PersonaUpdate) (d : PersonaData) : PersonaData :=
  mkData (default (first_name d) (u_first_name data))
    (default (last_name d) (u_last_name data))
    (match u_email data with Some e => Some e | None => email d end)
    (default (phone d) (u_phone data))
    (default (birth_date d) (u_birth_date data))
    (default (is_active d) (u_is_active data))
    (default (notes d) (u_notes data)).

(** [update_persona] (lines 124-145): the lookup, the check of a changed
    email against the rows with another identifier, the assignments and
    the commit. *)
Definition update_persona (persona_id : Z) (payload : PersonaUpdate) (db : DB)
    : outcome Persona * DB :=
  match first (filter (λ p, p_id p = persona_id) db) with
  | None => (inl PersonaNotFoundError, db)
  | Some obj =>
      let taken :=
        match u_email payload with
        | Some e =>
            bool_decide (Some e ≠ p_email obj)
            && bool_decide (is_Some (first (filter
                 (λ p, p_email p = Some e ∧ p_id p ≠ persona_id) db)))
        | None => false
        end in
      if taken then (inl EmailAlreadyExistsError, db)
      else
        let obj' := mkPersona (p_id obj) (setattrs payload (p_data obj)) in
        match update_row obj' db with
        | inl _ => (inl EmailAlreadyExistsError, db)
        | inr db' => (inr obj', db')
        end
  end.

(** [delete_persona] (lines 148-154). *)
Definition delete_persona (persona_id : Z) (db : DB) : outcome unit * DB :=
  match first (filter (λ p, p_id p = persona_id) db) with
  | None => (inl PersonaNotFoundError, db)
  | Some obj => (inr (), delete_row (p_id obj) db)
  end.

(** [reset_personas] (lines 157-161). *)
Definition reset_personas (db : DB) : Z * DB :=
  let '(deleted_count, db') := query_delete (λ _, true) db in
  (deleted_count, db').

End Service.

(** The range check of the controller before it calls [poblar_personas]
    ([persona_controller.py], line 21): true when the count is refused with
    status 400. *)
Definition cantidad_rechazada (cantidad : Z) : bool :=
  (cantidad <=? 0) || (cantidad >? 1000).

(** The transient object that [create_persona] builds from the request. *)
Definition data_of (payload : PersonaCreate) : PersonaData :=
  mkData (c_first_name payload) (c_last_name payload) (Some (c_email payload))
    (c_phone payload) (c_birth_date payload) (c_is_active payload)
    (c_notes payload).

(** ** Operations on the store, and its invariants *)

(** The five operations that write to the table. *)
Inductive op :=
  | Create (payload : PersonaCreate)
  | Update (persona_id : Z) (payload : PersonaUpdate)
  | BulkPopulate (fake : nat → Fake) (cantidad : Z)
  | Delete (persona_id : Z)
  | ResetAll.

(** The table an operation leaves behind, whether it returned or raised. *)
Definition run (lower : string → string) (o : op) (db : DB) : DB :=
  match o with
  | Create payload => (create_persona payload db).2
  | Update persona_id payload => (update_persona persona_id payload db).2
  | BulkPopulate fake cantidad => (poblar_personas lower fake cantidad db).2
  | Delete persona_id => (delete_persona persona_id db).2
  | ResetAll => (reset_personas db).2
  end.

(** No two rows hold the same email. *)
Definition emails_unique (db : DB) : Prop :=
  ∀ i j p q e,
    db !! i = Some p → db !! j = Some q →
    p_email p = Some e → p_email q = Some e → i = j.

(** No two rows hold the same primary key. *)
Definition ids_unique (db : DB) : Prop := NoDup (p_id <$> db).

(** The number of rows holding the email [e]. *)
Definition count_email (e : string) (db : DB) : nat :=
  length (filter (λ p, p_email p = Some e) db).

(** ** The domain statistics, as the specification words them *)

(** The substring after the first ['@'], when there is one. *)
Fixpoint after_first_at (s : string) : option string :=
  match s with
  | EmptyString => None
  | String c s' => if Ascii.eqb c "@" then Some s' else after_first_at s'
  end.

(** The text up to the first ['@'] or the end. *)
Fixpoint until_at (s : string) : string :=
  match s with
  | EmptyString => EmptyString
  | String c s' => if Ascii.eqb c "@" then EmptyString else String c (until_at s')
  end.

(** The segment between the first ['@'] and the next one (or the end). *)
Definition segment_after_at (s : string) : option string :=
  until_at <$> after_first_at s.

Fixpoint count_at (s : string) : nat :=
  match s with
  | EmptyString => 0%nat
  | String c s' => ((if Ascii.eqb c "@" then 1 else 0) + count_at s')%nat
  end.

(** The number of rows whose email has the segment [d]. *)
Definition count_dominio (d : string) (db : DB) : nat :=
  length (filter (λ p, p_email p ≫= segment_after_at = Some d) db).

(** ** The age statistics, as the specification words them *)

(** The current (month, day) comes before the (month, day) of birth. *)
Definition precedes (hoy b : date) : Prop :=
  month hoy < month b ∨ (month hoy = month b ∧ day hoy < day b).

(** Current year minus year of birth, minus one before the birthday. *)
Definition age_in_years (hoy b : date) : Z :=
  year hoy - year b - (if decide (precedes hoy b) then 1 else 0).

(** The ages of the rows that have a birth date, in table order. *)
Definition ages (hoy : date) (db : DB) : list Z :=
  omap (λ p, age_in_years hoy <$> p_birth_date p) db.

(** ** Pagination, and the endpoint of the bulk populate *)

(** [list_personas] (lines 111-113): OFFSET [skip] and LIMIT [limit] on the
    unfiltered query.  The controller admits [skip >= 0] and
    [1 <= limit <= 1000]; what an engine does with a negative value is not
    modelled, and the properties below are stated for values that are not
    negative. *)
Definition list_personas (skip limit : Z) (db : DB) : list Persona :=
  take (Z.to_nat limit) (drop (Z.to_nat skip) db).

(** What an endpoint hands to the framework: an [HTTPException] it raised
    itself, an exception of the service that passes through it, or the body
    it returned. *)
Inductive response (A : Type) :=
  | HTTPException (status_code : Z) (detail : string)
  | Raised (e : error)
  | Returned (body : A).
Arguments HTTPException {A} status_code detail.
Arguments Raised {A} e.
Arguments Returned {A} body.

(** Modelled from the spec: [PoblarResponse] of [app/views/persona.py], with
    the two fields the controller fills in. *)
Record PoblarResponse := mkPoblarResponse {
  message : string;
  inserted_count : Z
}.

(** The endpoint [poblar_personas] of [persona_controller.py] (lines 18-27);
    the count is formatted in decimal, as an f-string does. *)
Definition poblar_personas_endpoint (lower : string → string)
    (fake : nat → Fake) (cantidad : Z) (db : DB)
    : response PoblarResponse * DB :=
  if (cantidad <=? 0) || (cantidad >? 1000) then
    (HTTPException 400 "La cantidad debe ser mayor a 0 y menor o igual a 1000.", db)
  else
    match poblar_personas lower fake cantidad db with
    | (inl e, db') => (Raised e, db')
    | (inr count, db') =>
        (Returned (mkPoblarResponse
           ("Se insertaron " +:+ pretty count
            +:+ " registros ficticios en la base de datos.") count), db')
    end.

(** ['@'.join(parts)], the inverse of [split "@"]. *)
Fixpoint join_at (parts : list string) : string :=
  match parts with
  | [] => EmptyString
  | [w] => w
  | w :: ws => w +:+ String "@" (join_at ws)
  end.

(** The first date comes before the second. *)
Definition date_lt (a b : date) : Prop :=
  year a < year b
  ∨ (year a = year b
     ∧ (month a < month b ∨ (month a = month b ∧ day a < day b))).

(** The sum of the counts of a mapping. *)
Definition total (m : gmap string Z) : Z := map_fold (λ _ n acc, n + acc) 0 m.

(** An update that sets no field. *)
Definition no_fields : PersonaUpdate :=
  mkUpdate None None None None None None None.

(** ** Sample rows and requests *)

Definition ana : Persona :=
  mkPersona 1 (mkData "Ana" "Torres" (Some "ana.torres@gmail.com"%string)
                 None (Some (Date 2000 5 17)) true None).

Definition luis : Persona :=
  mkPersona 2 (mkData "Luis" "Vega" (Some "luis.vega@yahoo.com"%string)
                 (Some "600123123"%string) (Some (Date 1990 12 1)) false None).

Definition eva : Persona :=
  mkPersona 3 (mkData "Eva" "Gil" (Some "eva.gil@gmail.com"%string)
                 None None true (Some "sin fecha"%string)).

Definition sample_db : DB := [ana; luis; eva].

(** A row whose email holds two ['@']. *)
Definition dora : Persona :=
  mkPersona 4 (mkData "Dora" "Rey" (Some "dora@casa@rey.es"%string)
                 None None true None).

Definition new_ivan : PersonaCreate :=
  mkCreate "Ivan" "Rubio" "ivan.rubio@outlook.com" None None true None.

Definition only_email (e : string) : PersonaUpdate :=
  mkUpdate None None (Some e) None None None None.

(** The three emails of the specification's example of the statistics. *)
Definition with_email (i : Z) (e : string) : Persona :=
  mkPersona i (mkData "N" "A" (Some e) None None true None).

Definition three_emails : DB :=
  [with_email 1 "a@x.com"; with_email 2 "b@x.com"; with_email 3 "c@y.com"].

(** Rows born so as to be 20, 30 and 40 years old on 2026-06-15, and one
    row without a birth date. *)
Definition born (i : Z) (b : option date) : Persona :=
  mkPersona i (mkData "N" "A" None None b true None).

Definition three_ages : DB :=
  [born 1 (Some (Date 2006 6 15)); born 2 None;
   born 3 (Some (Date 1995 6 16)); born 4 (Some (Date 1986 1 1))].

(** A generator that hands out the same name and domain in every iteration. *)
Definition fake_const (i : nat) : Fake :=
  mkFake "Ana" "Torres" 0 "600000000" (Date 2000 1 1) 0 "hola" 1.

(** A generator whose names differ from one iteration to the next. *)
Definition fake_fresh (i : nat) : Fake :=
  mkFake (String (ascii_of_nat (65 + i)) "na") "Rubio" i "600000000"
    (Date 1990 1 1) i "hola" i.

(** * Properties *)

(** ** Queries *)

Section first_filter.
Context (P : Persona → Prop) `{!∀ p, Decision (P p)}.

Lemma first_filter_None (db : DB) :
  first (filter P db) = None ↔ ∀ p, p ∈ db → ¬ P p.
Proof.
  unfold first. rewrite head_None. split.
  - intros Hnil p Hp HP. eapply filter_nil_not_elem_of; eauto.
  - intros Hall. induction db as [|q db IH]; [done|].
    rewrite filter_cons_False; [|apply Hall; left].
    apply IH. intros p Hp. apply Hall. by right.
Qed.

Lemma first_filter_Some (db : DB) (obj : Persona) :
  first (filter P db) = Some obj → obj ∈ db ∧ P obj.
Proof.
  unfold first. intros Hobj%head_Some_elem_of.
  apply list_elem_of_filter in Hobj. tauto.
Qed.

Lemma first_filter_is_Some (db : DB) :
  is_Some (first (filter P db)) ↔ Exists P db.
Proof.
  rewrite Exists_exists. split.
  - intros [obj [Hin HP]%first_filter_Some]. eauto.
  - intros (p & Hp & HP).
    destruct (first (filter P db)) as [obj|] eqn:E; [by eexists|].
    rewrite first_filter_None in E. naive_solver.
Qed.
End first_filter.

(** Under unique primary keys a row is determined by its key. *)
Lemma ids_unique_inj (db : DB) (p q : Persona) :
  ids_unique db → p ∈ db → q ∈ db → p_id p = p_id q → p = q.
Proof.
  unfold ids_unique. induction db as [|r db IH]; [by intros _ ?%elem_of_nil|].
  rewrite fmap_cons, NoDup_cons.
  intros [Hr Hnd] [->|Hp]%elem_of_cons [->|Hq]%elem_of_cons Heq; auto.
  - exfalso. apply Hr. rewrite Heq. by apply list_elem_of_fmap_2.
  - exfalso. apply Hr. rewrite <- Heq. by apply list_elem_of_fmap_2.
Qed.

Lemma first_by_id (db : DB) (p : Persona) :
  ids_unique db → p ∈ db →
  first (filter (λ q, p_id q = p_id p) db) = Some p.
Proof.
  intros Hu Hp.
  destruct (first (filter (λ q, p_id q = p_id p) db)) as [obj|] eqn:E.
  - apply first_filter_Some in E as [Hobj Hid].
    f_equal. by eapply ids_unique_inj.
  - rewrite first_filter_None in E. by destruct (E p Hp).
Qed.

Lemma delete_row_absent (i : Z) (db : DB) :
  (∀ p, p ∈ db → p_id p ≠ i) → delete_row i db = db.
Proof.
  unfold delete_row. induction db as [|q db IH]; intros Hall; [done|].
  rewrite filter_cons_True by (apply Hall; left).
  f_equal. apply IH. intros p Hp. apply Hall. by right.
Qed.

Lemma delete_row_split (l1 l2 : DB) (p : Persona) :
  ids_unique (l1 ++ p :: l2) →
  delete_row (p_id p) (l1 ++ p :: l2) = l1 ++ l2 ∧ p ∉ (l1 ++ l2).
Proof.
  intros Hu.
  assert (Hother : ∀ q, q ∈ l1 ++ l2 → p_id q ≠ p_id p).
  { intros q Hq Heq. unfold ids_unique in Hu.
    rewrite fmap_app, fmap_cons in Hu.
    apply NoDup_app in Hu as (_ & Hdisj & [Hp _]%NoDup_cons).
    apply elem_of_app in Hq as [Hq|Hq].
    - apply (Hdisj (p_id q)); [by apply list_elem_of_fmap_2|]. rewrite Heq. left.
    - apply Hp. rewrite <- Heq. by apply list_elem_of_fmap_2. }
  split.
  - unfold delete_row. rewrite filter_app, filter_cons_False by (intros H; apply H; reflexivity).
    rewrite <- filter_app. by apply delete_row_absent.
  - intros Hp. by apply (Hother p Hp).
Qed.

(** ** Lookup by identifier *)

(** C4. For an identifier that no row carries, [get_persona],
    [delete_persona] and [update_persona] raise [PersonaNotFoundError] and
    the table is left as it was; for the identifier of a row, [get_persona]
    returns that row and [delete_persona] removes that row and no other. *)
Theorem by_id_not_found_or_found (db : DB) (persona_id : Z) :
  ids_unique db →
  ((∀ p, p ∈ db → p_id p ≠ persona_id) →
     get_persona persona_id db = inl PersonaNotFoundError
     ∧ delete_persona persona_id db = (inl PersonaNotFoundError, db)
     ∧ ∀ payload,
         update_persona persona_id payload db = (inl PersonaNotFoundError, db))
  ∧ (∀ p, p ∈ db → p_id p = persona_id →
     get_persona persona_id db = inr p
     ∧ ∃ l1 l2, db = l1 ++ p :: l2 ∧ (p ∉ l1 ++ l2)
         ∧ delete_persona persona_id db = (inr (), l1 ++ l2)).
Proof.
  intros Hu. split.
  - intros Hnone.
    assert (E : first (filter (λ p, p_id p = persona_id) db) = None).
    { apply first_filter_None. intros p Hp. by apply Hnone. }
    unfold get_persona, delete_persona, update_persona. by rewrite E.
  - intros p Hp <-.
    pose proof (first_by_id db p Hu Hp) as E.
    unfold get_persona, delete_persona. rewrite E. split; [done|].
    destruct (list_elem_of_split db p Hp) as (l1 & l2 & ->).
    destruct (delete_row_split l1 l2 p Hu) as [Hdel Hnot].
    exists l1, l2. by rewrite Hdel.
Qed.

Lemma by_id_not_found_or_found_witness :
  (get_persona 7 sample_db = inl PersonaNotFoundError
   ∧ delete_persona 7 sample_db = (inl PersonaNotFoundError, sample_db)
   ∧ ∀ payload,
       update_persona 7 payload sample_db = (inl PersonaNotFoundError, sample_db))
  ∧ get_persona 2 sample_db = inr luis.
Proof.
  assert (Hu : ids_unique sample_db).
  { apply (bool_decide_unpack _). vm_compute. exact I. }
  split.
  - apply (proj1 (by_id_not_found_or_found sample_db 7 Hu)).
    apply Forall_forall. apply (bool_decide_unpack _). vm_compute. exact I.
  - apply (proj2 (by_id_not_found_or_found sample_db 2 Hu) luis).
    + apply (bool_decide_unpack _). vm_compute. exact I.
    + reflexivity.
Defined.

(** ** Reset *)

Lemma query_delete_all (db : DB) :
  query_delete (λ _, true) db = (Z.of_nat (length db), []).
Proof.
  unfold query_delete. f_equal.
  - f_equal. f_equal. induction db as [|p db IH]; [done|].
    rewrite filter_cons_True by done. simpl. by rewrite IH.
  - induction db as [|p db IH]; [done|].
    rewrite filter_cons_False; [exact IH | intros H; by apply H].
Qed.

(** C9. [reset_personas] on a table of N rows deletes every row: it
    returns N and leaves the table empty. *)
Theorem reset_personas_all (db : DB) :
  reset_personas db = (Z.of_nat (length db), [])
  ∧ (reset_personas db).1 = Z.of_nat (length db)
  ∧ (reset_personas db).2 = [].
Proof. unfold reset_personas. by rewrite query_delete_all. Qed.

(** ** The two invariants of the table *)

Lemma emails_unique_cons (p : Persona) (db : DB) :
  emails_unique (p :: db) ↔
  (∀ e q, p_email p = Some e → q ∈ db → p_email q ≠ Some e) ∧ emails_unique db.
Proof.
  unfold emails_unique. split.
  - intros H. split.
    + intros e q Hp [j Hj]%list_elem_of_lookup Hq.
      by specialize (H 0%nat (S j) p q e eq_refl Hj Hp Hq).
    + intros i j p' q' e Hi Hj Hp Hq.
      specialize (H (S i) (S j) p' q' e Hi Hj Hp Hq). lia.
  - intros [Hhd Htl] [|i] [|j] p' q' e Hi Hj Hp Hq; simplify_eq/=; auto.
    + exfalso. apply (Hhd e q' Hp); [by eapply list_elem_of_lookup_2|done].
    + exfalso. apply (Hhd e p' Hq); [by eapply list_elem_of_lookup_2|done].
    + f_equal. eauto.
Qed.

Lemma emails_unique_NoDup (db : DB) :
  emails_unique db ↔ NoDup (omap p_email db).
Proof.
  induction db as [|p db IH].
  - split; [constructor|]. intros _ i j p q e Hi. by rewrite lookup_nil in Hi.
  - rewrite emails_unique_cons, IH. simpl.
    destruct (p_email p) as [e|] eqn:E.
    + rewrite NoDup_cons, list_elem_of_omap. split.
      * intros [Hhd Htl]. split; [|done].
        intros (q & Hq & Hqe). by eapply Hhd.
      * intros [Hhd Htl]. split; [|done].
        intros e' q [= <-] Hq Hqe. apply Hhd. eauto.
    + split; [tauto|]. intros Hnd. split; [|done]. by intros e q [=].
Qed.

Lemma emails_unique_snoc (db : DB) (obj : Persona) :
  emails_unique db →
  (∀ e q, p_email obj = Some e → q ∈ db → p_email q ≠ Some e) →
  emails_unique (db ++ [obj]).
Proof.
  rewrite !emails_unique_NoDup, omap_app. intros Hnd Hfresh.
  apply NoDup_app. split; [done|]. split.
  - intros e (q & Hq & Hqe)%list_elem_of_omap (r & Hr & Hre)%list_elem_of_omap.
    apply list_elem_of_singleton in Hr as ->. by eapply Hfresh.
  - simpl. destruct (p_email obj); repeat constructor. by intros ?%elem_of_nil.
Qed.

Lemma emails_unique_filter (P : Persona → Prop) `{!∀ p, Decision (P p)} (db : DB) :
  emails_unique db → emails_unique (filter P db).
Proof.
  induction db as [|p db IH]; [done|].
  rewrite emails_unique_cons. intros [Hhd Htl].
  destruct (decide (P p)).
  - rewrite filter_cons_True by done. apply emails_unique_cons. split; [|auto].
    intros e q Hp [_ Hq]%list_elem_of_filter. by eapply Hhd.
  - rewrite filter_cons_False by done. auto.
Qed.

Lemma ids_unique_filter (P : Persona → Prop) `{!∀ p, Decision (P p)} (db : DB) :
  ids_unique db → ids_unique (filter P db).
Proof.
  unfold ids_unique. induction db as [|p db IH]; [done|].
  rewrite fmap_cons, NoDup_cons. intros [Hhd Htl].
  destruct (decide (P p)).
  - rewrite filter_cons_True by done. rewrite fmap_cons, NoDup_cons.
    split; [|auto].
    intros (q & Hid & [_ Hq]%list_elem_of_filter)%list_elem_of_fmap.
    apply Hhd. rewrite Hid. by apply list_elem_of_fmap_2.
  - rewrite filter_cons_False by done. auto.
Qed.

(** The next primary key is above every key in the table. *)
Lemma next_id_fresh (db : DB) (p : Persona) : p ∈ db → p_id p < next_id db.
Proof.
  unfold next_id. induction db as [|q db IH]; [by intros ?%elem_of_nil|].
  rewrite fmap_cons. simpl. intros [->|Hp]%elem_of_cons; [lia|].
  specialize (IH Hp). lia.
Qed.

Lemma ids_unique_snoc (db : DB) (d : PersonaData) :
  ids_unique db → ids_unique (db ++ [mkPersona (next_id db) d]).
Proof.
  unfold ids_unique. rewrite fmap_app. intros Hnd.
  apply NoDup_app. split; [done|]. split; [|repeat constructor; by intros ?%elem_of_nil].
  intros i (q & -> & Hq)%list_elem_of_fmap Hi.
  apply list_elem_of_singleton in Hi. simpl in Hi.
  pose proof (next_id_fresh db q Hq). lia.
Qed.

(** ** The uniqueness constraint *)

Lemma email_conflict_false (i : Z) (e : string) (db : DB) :
  email_conflict i (Some e) db = false ↔
  ∀ p, p ∈ db → p_email p = Some e → p_id p = i.
Proof.
  unfold email_conflict. rewrite bool_decide_eq_false, Exists_exists. split.
  - intros Hno p Hp He. destruct (decide (p_id p = i)); [done|].
    exfalso. apply Hno. eauto.
  - intros Hall (p & Hp & He & Hne). auto.
Qed.

Lemma email_conflict_fresh (e : string) (db : DB) :
  email_conflict (next_id db) (Some e) db = false ↔
  ∀ p, p ∈ db → p_email p ≠ Some e.
Proof.
  rewrite email_conflict_false. split.
  - intros H p Hp He. pose proof (next_id_fresh db p Hp). specialize (H p Hp He). lia.
  - intros H p Hp He. by destruct (H p Hp).
Qed.

Lemma insert_row_inr (d : PersonaData) (db db' : DB) (obj : Persona) :
  insert_row d db = inr (obj, db') →
  obj = mkPersona (next_id db) d ∧ db' = db ++ [obj]
  ∧ (∀ e q, email d = Some e → q ∈ db → p_email q ≠ Some e).
Proof.
  unfold insert_row. simpl.
  destruct (email_conflict (next_id db) (email d) db) eqn:E; [done|].
  intros [= <- <-]. split; [done|]. split; [done|].
  intros e q He. rewrite He in E. by apply email_conflict_fresh.
Qed.

Lemma insert_row_free (d : PersonaData) (db : DB) (e : string) :
  email d = Some e → (∀ p, p ∈ db → p_email p ≠ Some e) →
  insert_row d db
  = inr (mkPersona (next_id db) d, db ++ [mkPersona (next_id db) d]).
Proof.
  intros He Hfree. unfold insert_row. cbn [p_id]. rewrite He.
  by rewrite (proj2 (email_conflict_fresh e db) Hfree).
Qed.

Lemma insert_row_invariants (d : PersonaData) (db db' : DB) (obj : Persona) :
  insert_row d db = inr (obj, db') →
  ids_unique db → emails_unique db → ids_unique db' ∧ emails_unique db'.
Proof.
  intros (-> & -> & Hfresh)%insert_row_inr Hi He. split.
  - by apply ids_unique_snoc.
  - by apply emails_unique_snoc.
Qed.

Lemma insert_all_invariants (objs : list PersonaData) (db db' : DB) :
  insert_all objs db = inr db' →
  ids_unique db → emails_unique db → ids_unique db' ∧ emails_unique db'.
Proof.
  revert db. induction objs as [|d ds IH]; simpl; intros db.
  - by intros [= <-].
  - destruct (insert_row d db) as [e|[obj db1]] eqn:E; [done|].
    intros Hall Hi He.
    destruct (insert_row_invariants _ _ _ _ E Hi He). eauto.
Qed.

Lemma emails_unique_inj (db : DB) (p q : Persona) (e : string) :
  emails_unique db → p ∈ db → q ∈ db →
  p_email p = Some e → p_email q = Some e → p = q.
Proof.
  intros Hu [i Hi]%list_elem_of_lookup [j Hj]%list_elem_of_lookup Hp Hq.
  assert (i = j) as -> by eauto. congruence.
Qed.

Lemma count_email_zero (e : string) (db : DB) :
  (∀ p, p ∈ db → p_email p ≠ Some e) → count_email e db = 0%nat.
Proof.
  intros Hno. unfold count_email.
  assert (first (filter (λ p, p_email p = Some e) db) = None) as ->%head_None;
    [|done]. by apply first_filter_None.
Qed.

Lemma count_email_one (e : string) (db : DB) (p : Persona) :
  emails_unique db → p ∈ db → p_email p = Some e → count_email e db = 1%nat.
Proof.
  unfold count_email. induction db as [|q db IH]; [by intros _ ?%elem_of_nil|].
  rewrite emails_unique_cons. intros [Hhd Htl] Hp He.
  destruct (decide (p_email q = Some e)) as [Hq|Hq].
  - rewrite filter_cons_True by done. simpl. f_equal.
    apply (count_email_zero e db). intros r Hr. by eapply Hhd.
  - rewrite filter_cons_False by done.
    apply elem_of_cons in Hp as [->|Hp]; [done|]. auto.
Qed.

(** ** Create *)

Lemma create_persona_taken (payload : PersonaCreate) (db : DB) (p : Persona) :
  p ∈ db → p_email p = Some (c_email payload) →
  create_persona payload db = (inl EmailAlreadyExistsError, db).
Proof.
  intros Hp He. unfold create_persona.
  destruct (first (filter _ db)) as [obj|] eqn:E; [done|].
  rewrite first_filter_None in E. by destruct (E p Hp).
Qed.

Lemma create_persona_free (payload : PersonaCreate) (db : DB) :
  (∀ p, p ∈ db → p_email p ≠ Some (c_email payload)) →
  create_persona payload db
  = (inr (mkPersona (next_id db) (data_of payload)),
     db ++ [mkPersona (next_id db) (data_of payload)]).
Proof.
  intros Hfree. unfold create_persona.
  assert (first (filter (λ p, p_email p = Some (c_email payload)) db) = None)
    as -> by by apply first_filter_None.
  fold (data_of payload).
  by rewrite (insert_row_free (data_of payload) db (c_email payload)).
Qed.

(** C2. When a row already holds the email of the request, [create_persona]
    raises [EmailAlreadyExistsError] and the table is unchanged; otherwise
    it appends one row, under an identifier no row carried, holding the
    fields of the request, and returns that row.  After one create, a
    second create with the same email raises and exactly one row holds
    that email. *)
Theorem create_persona_unique_email (payload : PersonaCreate) (db : DB) :
  ((∃ p, p ∈ db ∧ p_email p = Some (c_email payload)) →
     create_persona payload db = (inl EmailAlreadyExistsError, db))
  ∧ ((∀ p, p ∈ db → p_email p ≠ Some (c_email payload)) →
     ∃ obj, create_persona payload db = (inr obj, db ++ [obj])
       ∧ p_data obj = data_of payload
       ∧ ∀ p, p ∈ db → p_id p ≠ p_id obj)
  ∧ (emails_unique db →
     ∀ payload', c_email payload' = c_email payload →
       let db1 := (create_persona payload db).2 in
       create_persona payload' db1 = (inl EmailAlreadyExistsError, db1)
       ∧ count_email (c_email payload) db1 = 1%nat).
Proof.
  split; [|split].
  - intros (p & Hp & He). by eapply create_persona_taken.
  - intros Hfree. eexists. split; [by apply create_persona_free|].
    split; [done|]. intros p Hp. simpl.
    pose proof (next_id_fresh db p Hp). lia.
  - intros Hu payload' Heq db1.
    assert (∃ p, p ∈ db1 ∧ p_email p = Some (c_email payload)
                 ∧ emails_unique db1) as (p & Hp & He & Hu1).
    { subst db1.
      destruct (decide (Exists (λ p, p_email p = Some (c_email payload)) db))
        as [(p & Hp & He)%Exists_exists|Hno].
      - rewrite (create_persona_taken payload db p Hp He). eauto.
      - assert (Hfree : ∀ p, p ∈ db → p_email p ≠ Some (c_email payload)).
        { intros p Hp He. apply Hno, Exists_exists. eauto. }
        rewrite (create_persona_free payload db Hfree). simpl.
        eexists. split; [apply elem_of_app; right; by left|].
        split; [done|]. apply emails_unique_snoc; [done|].
        intros e q [= <-]. by apply Hfree. }
    split.
    + apply (create_persona_taken payload' db1 p Hp). by rewrite Heq.
    + by eapply count_email_one.
Qed.

Lemma create_persona_unique_email_witness :
  create_persona new_ivan sample_db
  = (inr (mkPersona 4 (data_of new_ivan)),
     sample_db ++ [mkPersona 4 (data_of new_ivan)])
  ∧ count_email "ivan.rubio@outlook.com"
      (create_persona new_ivan (create_persona new_ivan sample_db).2).2 = 1%nat.
Proof.
  pose proof (create_persona_unique_email new_ivan sample_db) as (_ & _ & H).
  assert (Hu : emails_unique sample_db).
  { apply emails_unique_NoDup. apply (bool_decide_unpack _). vm_compute. exact I. }
  destruct (H Hu new_ivan eq_refl) as [H1 H2].
  split; [reflexivity|]. rewrite H1. exact H2.
Defined.

(** ** Update *)

Lemma setattrs_email (payload : PersonaUpdate) (d : PersonaData) :
  email (setattrs payload d) = from_option Some (email d) (u_email payload).
Proof. unfold setattrs. simpl. by destruct (u_email payload). Qed.

(** An update that the engine accepts keeps both invariants. *)
Lemma update_row_invariants (obj' : Persona) (db db' : DB) :
  update_row obj' db = inr db' →
  ids_unique db → emails_unique db → ids_unique db' ∧ emails_unique db'.
Proof.
  unfold update_row.
  destruct (email_conflict (p_id obj') (p_email obj') db) eqn:E; [done|].
  intros [= <-] Hi He.
  set (f := λ p : Persona, if decide (p_id p = p_id obj') then obj' else p).
  assert (Hid : ∀ p, p_id (f p) = p_id p).
  { intros p. unfold f. destruct (decide _); congruence. }
  split.
  - unfold ids_unique. rewrite <- list_fmap_compose.
    assert (p_id ∘ f <$> db = p_id <$> db) as ->; [|done].
    apply list_fmap_ext. intros k p _. apply Hid.
  - intros i j p' q' e Hp' Hq' Hpe Hqe.
    rewrite list_lookup_fmap in Hp', Hq'.
    destruct (db !! i) as [p|] eqn:Hp; [|done].
    destruct (db !! j) as [q|] eqn:Hq; [|done].
    simpl in Hp', Hq'. injection Hp' as <-. injection Hq' as <-.
    assert (Hclash : ∀ r, r ∈ db → p_email r = Some e →
                     p_email obj' = Some e → p_id r = p_id obj').
    { intros r Hr Hre Hoe. rewrite Hoe in E.
      by apply (proj1 (email_conflict_false _ _ _) E). }
    assert (Hsame : p_id p = p_id q → i = j).
    { intros Heq. eapply (NoDup_lookup _ i j (p_id p) Hi);
        rewrite list_lookup_fmap; [by rewrite Hp | by rewrite Hq, Heq]. }
    unfold f in Hpe, Hqe.
    destruct (decide (p_id p = p_id obj')) as [Ep|Ep],
             (decide (p_id q = p_id obj')) as [Eq|Eq].
    + apply Hsame. congruence.
    + destruct Eq. apply Hclash; [by eapply list_elem_of_lookup_2|done..].
    + destruct Ep. apply Hclash; [by eapply list_elem_of_lookup_2|done..].
    + eauto.
Qed.

Lemma update_persona_invariants (persona_id : Z) (payload : PersonaUpdate) (db : DB) :
  ids_unique db → emails_unique db →
  ids_unique (update_persona persona_id payload db).2
  ∧ emails_unique (update_persona persona_id payload db).2.
Proof.
  intros Hi He. unfold update_persona.
  destruct (first (filter _ db)) as [obj|]; [|done].
  match goal with |- context [if ?b then _ else _] => destruct b end; [done|].
  destruct (update_row _ db) as [e|db'] eqn:E; [done|].
  by eapply update_row_invariants.
Qed.

(** C3. For the identifier of a row: an update whose fields hold an email
    other than the row's own, one that a row with another identifier
    holds, raises [EmailAlreadyExistsError] and leaves the table, and with
    it the row, unchanged; an update whose fields hold the row's own email
    is carried out and raises nothing. *)
Theorem update_persona_email_check
    (persona_id : Z) (payload : PersonaUpdate) (db : DB) (obj : Persona) (e : string) :
  ids_unique db → emails_unique db →
  obj ∈ db → p_id obj = persona_id → u_email payload = Some e →
  (p_email obj ≠ Some e →
   (∃ other, other ∈ db ∧ p_id other ≠ persona_id ∧ p_email other = Some e) →
   update_persona persona_id payload db = (inl EmailAlreadyExistsError, db))
  ∧ (p_email obj = Some e →
     ∃ db', update_persona persona_id payload db
            = (inr (mkPersona persona_id (setattrs payload (p_data obj))), db')
       ∧ (update_persona persona_id payload db).1 ≠ inl EmailAlreadyExistsError).
Proof.
  intros Hi He Hobj <- Hu.
  pose proof (first_by_id db obj Hi Hobj) as Hfirst.
  unfold update_persona. rewrite Hfirst, Hu. split.
  - intros Hne (other & Hother & Hid & Hoe).
    rewrite bool_decide_eq_true_2 by congruence.
    rewrite bool_decide_eq_true_2; [done|].
    apply first_filter_is_Some, Exists_exists. eauto.
  - intros Hown.
    rewrite (bool_decide_eq_false_2 (Some e ≠ p_email obj)) by (intros H; by apply H).
    cbn [andb]. unfold update_row. cbn [p_id].
    assert (email_conflict (p_id obj)
              (p_email (mkPersona (p_id obj) (setattrs payload (p_data obj)))) db
            = false) as ->.
    { unfold p_email at 1. cbn [p_data]. rewrite setattrs_email, Hu. simpl.
      apply email_conflict_false. intros p Hp Hpe.
      by rewrite (emails_unique_inj db p obj e He Hp Hobj Hpe Hown). }
    eexists. split; [done|]. by simpl.
Qed.

Lemma update_persona_email_check_witness :
  update_persona 2 (only_email "ana.torres@gmail.com") sample_db
  = (inl EmailAlreadyExistsError, sample_db)
  ∧ (update_persona 2 (only_email "luis.vega@yahoo.com") sample_db).1
    ≠ inl EmailAlreadyExistsError.
Proof.
  assert (Hi : ids_unique sample_db).
  { apply (bool_decide_unpack _). vm_compute. exact I. }
  assert (He : emails_unique sample_db).
  { apply emails_unique_NoDup. apply (bool_decide_unpack _). vm_compute. exact I. }
  assert (Hl : luis ∈ sample_db).
  { apply (bool_decide_unpack _). vm_compute. exact I. }
  split.
  - apply (proj1 (update_persona_email_check 2
             (only_email "ana.torres@gmail.com") sample_db luis
             "ana.torres@gmail.com" Hi He Hl eq_refl eq_refl)).
    + discriminate.
    + exists ana. split; [|split; [discriminate|reflexivity]].
      apply (bool_decide_unpack _). vm_compute. exact I.
  - destruct (proj2 (update_persona_email_check 2
             (only_email "luis.vega@yahoo.com") sample_db luis
             "luis.vega@yahoo.com" Hi He Hl eq_refl eq_refl) eq_refl)
      as (db' & _ & Hok).
    exact Hok.
Defined.

(** ** Every operation keeps the invariants *)

Lemma run_invariants (lower : string → string) (o : op) (db : DB) :
  ids_unique db → emails_unique db →
  ids_unique (run lower o db) ∧ emails_unique (run lower o db).
Proof.
  intros Hi He. destruct o as [payload|persona_id payload|fake cantidad|persona_id|];
    cbn [run].
  - unfold create_persona. destruct (first (filter _ db)); [done|].
    destruct (insert_row _ db) as [e|[obj db']] eqn:E; [done|].
    by eapply insert_row_invariants.
  - by apply update_persona_invariants.
  - unfold poblar_personas.
    destruct (insert_all _ db) as [e|db'] eqn:E; [done|].
    by eapply insert_all_invariants.
  - unfold delete_persona. destruct (first (filter _ db)); [|done].
    simpl. unfold delete_row. split.
    + by apply ids_unique_filter.
    + by apply emails_unique_filter.
  - unfold reset_personas. rewrite query_delete_all. simpl. split.
    + constructor.
    + intros i j p q e Hp. by rewrite lookup_nil in Hp.
Qed.

(** C1. Email uniqueness is kept by every operation on the table (create,
    update, bulk populate with any count, so with every count from 1 to
    1000, delete, reset): on a table in which no two rows hold the same
    email (nor the same primary key), the table the operation leaves
    behind has no two rows with the same email either. *)
Theorem email_uniqueness_invariant (lower : string → string) (o : op) (db : DB) :
  ids_unique db → emails_unique db →
  emails_unique (run lower o db) ∧ ids_unique (run lower o db).
Proof. intros Hi He. by destruct (run_invariants lower o db Hi He). Qed.

Lemma email_uniqueness_invariant_witness :
  emails_unique (run lower_ascii (BulkPopulate fake_fresh 3) sample_db)
  ∧ ids_unique (run lower_ascii (BulkPopulate fake_fresh 3) sample_db).
Proof.
  apply (email_uniqueness_invariant lower_ascii (BulkPopulate fake_fresh 3) sample_db).
  - apply (bool_decide_unpack _). vm_compute. exact I.
  - apply emails_unique_NoDup. apply (bool_decide_unpack _). vm_compute. exact I.
Defined.

(** Whatever operations are run, starting from the empty table, no two rows
    ever hold the same email. *)
Corollary emails_unique_always (lower : string → string) (os : list op) :
  emails_unique (foldl (λ db o, run lower o db) [] os).
Proof.
  assert (H : ∀ db, ids_unique db → emails_unique db →
              emails_unique (foldl (λ db o, run lower o db) db os)).
  { induction os as [|o os IH]; [done|]. intros db Hi He. simpl.
    destruct (run_invariants lower o db Hi He). by apply IH. }
  apply H; [constructor|]. intros i j p q e Hp. by rewrite lookup_nil in Hp.
Qed.

(** ** Bulk populate *)

Lemma registros_fmap {A} (g : nat → A) (l : list nat) (acc : list A) :
  foldl (λ registros i, registros ++ [g i]) acc l = acc ++ (g <$> l).
Proof.
  revert acc. induction l as [|i l IH]; intros acc; simpl.
  - by rewrite app_nil_r.
  - by rewrite IH, <- app_assoc.
Qed.

Lemma insert_row_error (d : PersonaData) (db : DB) (e : error) :
  insert_row d db = inl e → e = IntegrityError.
Proof. unfold insert_row. destruct (email_conflict _ _ _); congruence. Qed.

Lemma insert_all_inr (objs : list PersonaData) (db db' : DB) :
  insert_all objs db = inr db' →
  ∃ rows, db' = db ++ rows ∧ p_data <$> rows = objs.
Proof.
  revert db. induction objs as [|d ds IH]; simpl; intros db.
  - intros [= <-]. exists []. by rewrite app_nil_r.
  - destruct (insert_row d db) as [e|[obj db1]] eqn:E; [done|].
    apply insert_row_inr in E as (-> & -> & _).
    intros (rows & -> & <-)%IH. eexists (_ :: rows).
    by rewrite <- app_assoc.
Qed.

(** Distinct emails that no row holds are all accepted. *)
Lemma insert_all_distinct (objs : list PersonaData) (db : DB) :
  NoDup (omap email objs) →
  (∀ d e p, d ∈ objs → email d = Some e → p ∈ db → p_email p ≠ Some e) →
  ∃ db', insert_all objs db = inr db'.
Proof.
  revert db. induction objs as [|d ds IH]; simpl; intros db Hnd Hfresh; [eauto|].
  assert (Hrow : insert_row d db
                 = inr (mkPersona (next_id db) d, db ++ [mkPersona (next_id db) d])).
  { destruct (email d) as [e|] eqn:E.
    - apply (insert_row_free d db e E). intros p Hp.
      apply (Hfresh d e p); [by left|done..].
    - unfold insert_row. by rewrite E. }
  rewrite Hrow. apply IH.
  - destruct (email d); [by apply NoDup_cons in Hnd as [_ ?]|done].
  - intros d' e p Hd' He [Hp|Hp]%elem_of_app.
    + apply (Hfresh d' e p); [by right|done..].
    + apply list_elem_of_singleton in Hp as ->. unfold p_email. simpl.
      intros Hd. rewrite Hd in Hnd. apply NoDup_cons in Hnd as [Hnot _].
      apply Hnot, list_elem_of_omap. eauto.
Qed.

(** The email of a generated row has the form the loop gives it, and its
    domain is one of the four. *)
Lemma fake_persona_email (lower : string → string) (f : Fake) :
  ∃ dominio, dominio ∈ dominios_validos
    ∧ email (fake_persona lower f)
      = Some (lower (fk_first_name f) +:+ "." +:+ lower (fk_last_name f)
              +:+ "@" +:+ dominio)
    ∧ birth_date (fake_persona lower f) = Some (fk_date_of_birth f).
Proof.
  exists (choice dominios_validos (rnd_dominio f) ""). split; [|done].
  unfold choice. apply list_elem_of_In, nth_In.
  apply Nat.mod_upper_bound. discriminate.
Qed.

(** When the generated emails differ from one another and from the emails
    in the table, [poblar_personas] appends one row per iteration and
    returns their number. *)
Lemma poblar_personas_distinct
    (lower : string → string) (fake : nat → Fake) (cantidad : Z) (db : DB) :
  let registros := (fake_persona lower ∘ fake) <$> seq 0 (Z.to_nat cantidad) in
  0 ≤ cantidad →
  NoDup (omap email registros) →
  (∀ d e p, d ∈ registros → email d = Some e → p ∈ db → p_email p ≠ Some e) →
  ∃ rows, poblar_personas lower fake cantidad db = (inr cantidad, db ++ rows)
    ∧ p_data <$> rows = registros
    ∧ length rows = Z.to_nat cantidad.
Proof.
  intros registros Hpos Hnd Hfresh. unfold poblar_personas.
  rewrite registros_fmap, app_nil_l.
  change (((λ i, fake_persona lower (fake i)) <$> seq 0 (Z.to_nat cantidad)))
    with registros.
  destruct (insert_all_distinct registros db Hnd Hfresh) as [db' E].
  rewrite E. destruct (insert_all_inr _ _ _ E) as (rows & -> & Hrows).
  exists rows. split; [|split; [done|]].
  - f_equal. f_equal. unfold registros. rewrite length_fmap, length_seq. lia.
  - rewrite <- (length_fmap p_data), Hrows. unfold registros.
    by rewrite length_fmap, length_seq.
Qed.

(** C8. [poblar_personas] does not always insert the rows it generated:
    when the generator hands out the same first name, last name and domain
    in two iterations, the commit raises [IntegrityError], which the
    function does not catch, and no row is inserted.  Here the count is
    2, which the controller lets through, on any table. *)
Theorem poblar_personas_collision (lower : string → string) (db : DB) :
  cantidad_rechazada 2 = false
  ∧ poblar_personas lower fake_const 2 db = (inl IntegrityError, db).
Proof.
  split; [done|].
  unfold poblar_personas. rewrite registros_fmap, app_nil_l.
  change (Z.to_nat 2) with 2%nat. cbn [seq fmap list_fmap insert_all].
  set (d := fake_persona lower (fake_const 0)).
  change (fake_persona lower (fake_const 1)) with d.
  destruct (insert_row d db) as [e|[obj db1]] eqn:E.
  - by rewrite (insert_row_error d db e E).
  - apply insert_row_inr in E as (-> & -> & _).
    unfold insert_row. cbn [p_id]. set (obj := mkPersona (next_id db) d).
    assert (email_conflict (next_id (db ++ [obj])) (email d) (db ++ [obj]) = true)
      as ->; [|done].
    destruct (fake_persona_email lower (fake_const 0)) as (dom & _ & He & _).
    fold d in He. rewrite He. unfold email_conflict.
    apply bool_decide_eq_true_2, Exists_exists. exists obj.
    assert (Hobj : obj ∈ db ++ [obj]) by (apply elem_of_app; right; by left).
    split; [done|]. split; [done|].
    pose proof (next_id_fresh _ _ Hobj). lia.
Qed.

(** ** Search *)

Section like_facts.
Variable chr_eq : ascii → ascii → bool.

Lemma like_percent_unfold (pat s : string) :
  like chr_eq (String "%" pat) s
  = like chr_eq pat s
    || match s with
       | EmptyString => false
       | String _ s' => like chr_eq (String "%" pat) s'
       end.
Proof. by destruct s. Qed.

Lemma like_percent (s : string) : like chr_eq "%" s = true.
Proof.
  induction s as [|c s IH]; [done|].
  rewrite like_percent_unfold, IH. apply orb_true_r.
Qed.

Lemma like_percent_percent (s : string) : like chr_eq "%%" s = true.
Proof. by rewrite like_percent_unfold, like_percent. Qed.

(** A term without wildcards, followed by [%], matches the strings that
    start with the term. *)
Lemma like_starts_with (t s : string) :
  no_wildcard t = true →
  like chr_eq (t +:+ "%") s = starts_with chr_eq t s.
Proof.
  revert s. induction t as [|c t IH]; intros s Hnw.
  - simpl String.append. rewrite like_percent. by destruct s.
  - simpl in Hnw. apply andb_true_iff in Hnw as [Hc Hnw].
    apply andb_true_iff in Hc as [Hp Hu].
    apply negb_true_iff in Hp, Hu.
    simpl. rewrite Hp, Hu. destruct s as [|d s]; [done|]. by rewrite IH.
Qed.

(** Between two [%], it matches the strings in which the term occurs. *)
Lemma like_occurs_in (t s : string) :
  no_wildcard t = true →
  like chr_eq ("%" +:+ t +:+ "%") s = occurs_in chr_eq t s.
Proof.
  intros Hnw. change ("%" +:+ t +:+ "%") with (String "%" (t +:+ "%")).
  induction s as [|d s IH].
  - rewrite like_percent_unfold, like_starts_with by done. by simpl.
  - rewrite like_percent_unfold, like_starts_with, IH by done. by simpl.
Qed.

Lemma search_cond_no_wildcard (termino : string) (p : Persona) :
  no_wildcard termino = true →
  search_cond chr_eq termino p
  = occurs_in chr_eq termino (first_name (p_data p))
    || occurs_in chr_eq termino (last_name (p_data p))
    || from_option (occurs_in chr_eq termino) false (p_email p).
Proof.
  intros Hnw. unfold search_cond, sql_contains.
  destruct (p_email p) as [e|]; cbn [fmap option_fmap option_map from_option];
    rewrite !like_occurs_in by done;
    by repeat destruct (occurs_in _ _ _).
Qed.

(** For a term without [%] and [_], the search returns the rows in which
    the term occurs in the first name, the last name or the email. *)
Lemma search_personas_no_wildcard (termino : string) (db : DB) :
  no_wildcard termino = true →
  search_personas chr_eq termino db
  = filter (λ p, occurs_in chr_eq termino (first_name (p_data p))
                 || occurs_in chr_eq termino (last_name (p_data p))
                 || from_option (occurs_in chr_eq termino) false (p_email p)
                 = true) db.
Proof.
  intros Hnw. unfold search_personas. apply list_filter_iff.
  intros p. by rewrite search_cond_no_wildcard.
Qed.

Lemma search_cond_empty (p : Persona) : search_cond chr_eq "" p = true.
Proof.
  unfold search_cond, sql_contains. simpl String.append.
  cbn [fmap option_fmap option_map]. rewrite !like_percent_percent.
  by destruct (p_email p).
Qed.
End like_facts.

(** C10. [search_personas] with the empty string as the term returns every
    row of the table. *)
Theorem search_personas_empty_term (chr_eq : ascii → ascii → bool) (db : DB) :
  search_personas chr_eq "" db = db.
Proof.
  unfold search_personas. induction db as [|p db IH]; [done|].
  rewrite filter_cons_True by apply search_cond_empty. by rewrite IH.
Qed.

(** C7. [search_personas] does not return exactly the rows in which the
    term occurs: for the term ["_"], whatever way the engine compares
    characters, it returns a row in which no field holds an underscore,
    with exact comparison and with comparison that ignores case alike. *)
Theorem search_personas_wildcard (chr_eq : ascii → ascii → bool) :
  search_personas chr_eq "_" [ana] = [ana]
  ∧ no_wildcard "_" = false
  ∧ Forall (λ field, occurs_in chr_eq_exact "_" field = false
                     ∧ occurs_in chr_eq_nocase "_" field = false)
      ["Ana"; "Torres"; "ana.torres@gmail.com"]%string.
Proof.
  split; [reflexivity|]. split; [reflexivity|].
  repeat constructor.
Qed.

(** ** Domain statistics *)

Lemma split_at_unfold (s : string) :
  split "@" s = until_at s :: from_option (split "@") [] (after_first_at s).
Proof.
  induction s as [|c s IH]; [done|]. simpl.
  destruct (Ascii.eqb c "@"); [done|]. by rewrite IH.
Qed.

(** Element 1 of the split is the segment after the first ['@']. *)
Lemma split_at_1 (s : string) : split "@" s !! 1%nat = segment_after_at s.
Proof.
  rewrite split_at_unfold. unfold segment_after_at. simpl.
  destruct (after_first_at s) as [r|]; [|done].
  simpl. by rewrite split_at_unfold.
Qed.

Lemma dominio_de_inr (p : Persona) (d : string) :
  dominio_de p = inr d ↔ p_email p ≫= segment_after_at = Some d.
Proof.
  unfold dominio_de. destruct (p_email p) as [e|]; simpl; [|done].
  rewrite split_at_1. destruct (segment_after_at e); naive_solver.
Qed.

Lemma segment_after_at_None (e : string) :
  segment_after_at e = None ↔ count_at e = 0%nat.
Proof.
  unfold segment_after_at. rewrite fmap_None.
  induction e as [|c e IH]; [done|]. simpl.
  destruct (Ascii.eqb c "@"); [done|]. by rewrite IH.
Qed.

Lemma until_at_no_at (s : string) : count_at s = 0%nat → until_at s = s.
Proof.
  induction s as [|c s IH]; [done|]. simpl.
  destruct (Ascii.eqb c "@"); [done|]. intros H. by rewrite IH.
Qed.

Lemma segment_after_at_one (e : string) :
  count_at e = 1%nat → segment_after_at e = after_first_at e.
Proof.
  unfold segment_after_at. induction e as [|c e IH]; [done|]. simpl.
  destruct (Ascii.eqb c "@"); [|done].
  intros [= H]. simpl. by rewrite until_at_no_at.
Qed.

Lemma count_dominio_cons (d : string) (p : Persona) (db : DB) :
  count_dominio d (p :: db)
  = ((if decide (p_email p ≫= segment_after_at = Some d) then 1 else 0)
     + count_dominio d db)%nat.
Proof.
  unfold count_dominio. rewrite filter_cons. by destruct (decide _).
Qed.

Lemma get_stats_dominios_fold (db : DB) (m : gmap string Z) (d : string) :
  foldl (λ conteo p,
           match dominio_de p with
           | inr dominio => <[dominio := default 0 (conteo !! dominio) + 1]> conteo
           | inl _ => conteo
           end) m db !! d
  = if decide (count_dominio d db = 0%nat) then m !! d
    else Some (default 0 (m !! d) + Z.of_nat (count_dominio d db)).
Proof.
  revert m. induction db as [|p db IH]; intros m; [done|].
  cbn [foldl]. rewrite IH, count_dominio_cons. clear IH.
  destruct (dominio_de p) as [x|d'] eqn:E.
  - assert (p_email p ≫= segment_after_at ≠ Some d) as Hne.
    { intros H%dominio_de_inr. congruence. }
    by rewrite (decide_False (P := _ = Some d)) by done.
  - apply dominio_de_inr in E. destruct (decide (d' = d)) as [->|Hne].
    + rewrite (decide_True (P := _ = Some d)), lookup_insert_eq by done. simpl.
      destruct (decide (count_dominio d db = 0%nat)) as [->|];
        rewrite ?decide_False by lia; f_equal; lia.
    + assert (p_email p ≫= segment_after_at ≠ Some d) as Hne' by congruence.
      by rewrite (decide_False (P := _ = Some d)), lookup_insert_ne by done.
Qed.

(** C6, as the code has it.  The keys of [get_stats_dominios] are the
    segments between the first ['@'] and the next one (or the end) of the
    emails that hold an ['@'], each with the number of rows whose email has
    that segment; for an email with one ['@'] the segment is the substring
    after it; a row whose email is missing or holds no ['@'] has no segment,
    so it is counted nowhere, and the function returns a mapping for every
    table. *)
Theorem get_stats_dominios_counts (db : DB) (d : string) :
  get_stats_dominios db !! d
  = (if decide (count_dominio d db = 0%nat) then None
     else Some (Z.of_nat (count_dominio d db)))
  ∧ (∀ e, count_at e = 1%nat → segment_after_at e = after_first_at e)
  ∧ (∀ p, p_email p = None ∨ (∃ e, p_email p = Some e ∧ count_at e = 0%nat) →
       p_email p ≫= segment_after_at = None
       ∧ get_stats_dominios (p :: db) = get_stats_dominios db).
Proof.
  split; [|split].
  - unfold get_stats_dominios. rewrite get_stats_dominios_fold, lookup_empty.
    by destruct (decide _).
  - apply segment_after_at_one.
  - intros p Hp.
    assert (Hseg : p_email p ≫= segment_after_at = None).
    { destruct Hp as [->|(e & -> & He)]; [done|]. by apply segment_after_at_None. }
    split; [done|]. apply map_eq. intros k.
    unfold get_stats_dominios. rewrite !get_stats_dominios_fold, count_dominio_cons.
    by rewrite (decide_False (P := _ = Some k)) by congruence.
Qed.

(** C6, as the claim words it, fails on an email with two ['@']: the key
    is the text between them, which is not the substring after the first
    ['@'] of any email in the table, whether the emails with more than one
    ['@'] are taken as well formed or not. *)
Lemma get_stats_dominios_two_ats :
  ¬ (∀ d, is_Some (get_stats_dominios [dora] !! d)
          ↔ ∃ p, p ∈ [dora] ∧ p_email p ≫= after_first_at = Some d)
  ∧ ¬ (∀ d, is_Some (get_stats_dominios [dora] !! d)
            ↔ ∃ p e, p ∈ [dora] ∧ p_email p = Some e ∧ count_at e = 1%nat
                     ∧ after_first_at e = Some d).
Proof.
  assert (Hkey : is_Some (get_stats_dominios [dora] !! "casa"%string))
    by by exists 1.
  split; intros H; apply (H "casa"%string) in Hkey.
  - destruct Hkey as (p & Hp & Hd).
    apply list_elem_of_singleton in Hp as ->. discriminate Hd.
  - destruct Hkey as (p & e & Hp & He & Hone & Hd).
    apply list_elem_of_singleton in Hp as ->. injection He as <-.
    discriminate Hone.
Qed.

(** ** Age statistics *)

Lemma tuple_lt_precedes (hoy b : date) :
  tuple_lt (month hoy, day hoy) (month b, day b) = true ↔ precedes hoy b.
Proof. unfold tuple_lt, precedes. simpl. lia. Qed.

Lemma edad_age_in_years (hoy b : date) : edad hoy b = age_in_years hoy b.
Proof.
  unfold edad, age_in_years.
  destruct (tuple_lt _ _) eqn:E, (decide (precedes hoy b)) as [H|H]; try done.
  - apply tuple_lt_precedes in E. contradiction.
  - apply tuple_lt_precedes in H. congruence.
Qed.

Lemma edades_fold (hoy : date) (db : DB) (acc : list Z) :
  foldl (λ edades p,
           match p_birth_date p with
           | Some b => edades ++ [edad hoy b]
           | None => edades
           end) acc db
  = acc ++ ages hoy db.
Proof.
  revert acc. induction db as [|p db IH]; intros acc.
  - by rewrite app_nil_r.
  - cbn [foldl]. rewrite IH. unfold ages. cbn [omap list_omap].
    destruct (p_birth_date p) as [b|]; simpl; [|done].
    by rewrite <- app_assoc, edad_age_in_years.
Qed.

(** The list the loop builds holds the ages of the rows with a birth date. *)
Lemma edades_de_ages (hoy : date) (db : DB) : edades_de hoy db = ages hoy db.
Proof. unfold edades_de. by rewrite edades_fold. Qed.

Lemma py_sum_foldr (l : list Z) : py_sum l = foldr Z.add 0 l.
Proof.
  unfold py_sum. assert (H : ∀ a, foldl Z.add a l = a + foldr Z.add 0 l).
  { induction l as [|x l IH]; intros a; simpl; [lia|]. rewrite IH. lia. }
  by rewrite H.
Qed.

Lemma foldl_min_least (xs : list Z) (x : Z) :
  foldl Z.min x xs ∈ x :: xs ∧ Forall (λ a, foldl Z.min x xs ≤ a) (x :: xs).
Proof.
  revert x. induction xs as [|y xs IH]; intros x; simpl.
  - split; [by left|]. by repeat constructor.
  - destruct (IH (Z.min x y)) as [Hin Hle]. split.
    + apply elem_of_cons in Hin as [Hm|Hin]; [|by do 2 right].
      rewrite Hm. destruct (Z.min_spec x y) as [[_ ->]|[_ ->]];
        [left | right; left].
    + apply Forall_cons in Hle as [Hm Hxs].
      repeat constructor; [lia..|done].
Qed.

Lemma foldl_max_greatest (xs : list Z) (x : Z) :
  foldl Z.max x xs ∈ x :: xs ∧ Forall (λ a, a ≤ foldl Z.max x xs) (x :: xs).
Proof.
  revert x. induction xs as [|y xs IH]; intros x; simpl.
  - split; [by left|]. by repeat constructor.
  - destruct (IH (Z.max x y)) as [Hin Hle]. split.
    + apply elem_of_cons in Hin as [Hm|Hin]; [|by do 2 right].
      rewrite Hm. destruct (Z.max_spec x y) as [[_ ->]|[_ ->]];
        [right; left | left].
    + apply Forall_cons in Hle as [Hm Hxs].
      repeat constructor; [lia..|done].
Qed.

(** C5. [get_stats_edad] works on the ages of exactly the rows that have a
    birth date, each age being the current year minus the year of birth,
    minus one when the current (month, day) comes before that of birth.
    With no such row (an empty table included) the three values are 0;
    otherwise the average is the sum of the ages divided by their number
    and rounded down, the minimum is the least of the ages and the maximum
    the greatest. *)
Theorem get_stats_edad_spec (hoy : date) (db : DB) :
  let st := get_stats_edad hoy db in
  match ages hoy db with
  | [] => st = mkStats 0 0 0
  | a :: rest =>
      let l := a :: rest in
      let n := Z.of_nat (length l) in
      edad_promedio st = foldr Z.add 0 l `div` n
      ∧ n * edad_promedio st ≤ foldr Z.add 0 l < n * edad_promedio st + n
      ∧ edad_minima st ∈ l ∧ Forall (λ x, edad_minima st ≤ x) l
      ∧ edad_maxima st ∈ l ∧ Forall (λ x, x ≤ edad_maxima st) l
  end.
Proof.
  intros st. subst st. unfold get_stats_edad. rewrite edades_de_ages.
  destruct db as [|p db]; [done|].
  destruct (ages hoy (p :: db)) as [|a rest]; [done|].
  cbn [edad_promedio edad_minima edad_maxima py_min py_max].
  rewrite py_sum_foldr.
  destruct (foldl_min_least rest a) as [Hmin Hle].
  destruct (foldl_max_greatest rest a) as [Hmax Hge].
  split; [done|]. split; [|done].
  set (n := Z.of_nat (length (a :: rest))).
  assert (0 < n) by (subst n; simpl; lia).
  pose proof (Z.mul_div_le (foldr Z.add 0 (a :: rest)) n).
  pose proof (Z.mul_succ_div_gt (foldr Z.add 0 (a :: rest)) n).
  lia.
Qed.

(** ** The examples of the specification *)

Example get_stats_dominios_three_emails :
  get_stats_dominios three_emails !! "x.com"%string = Some 2
  ∧ get_stats_dominios three_emails !! "y.com"%string = Some 1
  ∧ size (get_stats_dominios three_emails) = 2%nat.
Proof. by vm_compute. Qed.

Example get_stats_edad_three_ages :
  get_stats_edad (Date 2026 6 15) three_ages = mkStats 30 20 40
  ∧ get_stats_edad (Date 2026 6 15) [born 2 None] = mkStats 0 0 0
  ∧ get_stats_edad (Date 2026 6 15) [] = mkStats 0 0 0.
Proof. by vm_compute. Qed.

Example poblar_personas_three :
  (poblar_personas lower_ascii fake_fresh 3 sample_db).1 = inr 3
  ∧ (λ p, p_email p) <$> drop 3 (poblar_personas lower_ascii fake_fresh 3 sample_db).2
    = [Some "ana.rubio@gmail.com"; Some "bna.rubio@outlook.com";
       Some "cna.rubio@yahoo.com"]%string.
Proof. by vm_compute. Qed.

(** * Further properties of the service *)

(** ** Pagination *)

(** X1. A page holds as many rows as the limit allows and the table has
    left after the rows that were skipped. *)
Theorem list_personas_length (skip limit : Z) (db : DB) :
  0 ≤ skip → 0 ≤ limit →
  Z.of_nat (length (list_personas skip limit db))
  = Z.max 0 (Z.min limit (Z.of_nat (length db) - skip)).
Proof.
  intros Hs Hl. unfold list_personas. rewrite length_take, length_drop. lia.
Qed.

Lemma list_personas_length_witness :
  Z.of_nat (length (list_personas 2 2 sample_db)) = 1.
Proof. apply (list_personas_length 2 2 sample_db); lia. Defined.

(** X2. Consecutive pages join into one page: the rows after [skip] up to
    limit [a], followed by the page that starts where that one ended, are
    the page of limit [a + b]; no row is lost or repeated between pages. *)
Theorem list_personas_pages (skip a b : Z) (db : DB) :
  0 ≤ skip → 0 ≤ a → 0 ≤ b →
  list_personas skip a db ++ list_personas (skip + a) b db
  = list_personas skip (a + b) db.
Proof.
  intros Hs Ha Hb. unfold list_personas.
  rewrite !Z2Nat.inj_add by done. rewrite <- drop_drop. apply take_take_drop.
Qed.

Lemma list_personas_pages_witness :
  list_personas 0 2 sample_db ++ list_personas (0 + 2) 2 sample_db
  = list_personas 0 (2 + 2) sample_db.
Proof. apply (list_personas_pages 0 2 2 sample_db); lia. Defined.

(** X3. A page from the start whose limit reaches the size of the table is
    the whole table, in table order, and a page that starts at or after
    the end is empty. *)
Theorem list_personas_bounds (skip limit : Z) (db : DB) :
  0 ≤ limit →
  (Z.of_nat (length db) ≤ limit → list_personas 0 limit db = db)
  ∧ (Z.of_nat (length db) ≤ skip → list_personas skip limit db = []).
Proof.
  intros Hl. unfold list_personas. split; intros H.
  - simpl. apply take_ge. lia.
  - rewrite drop_ge by lia. by destruct (Z.to_nat limit).
Qed.

Lemma list_personas_bounds_witness :
  list_personas 0 100 sample_db = sample_db
  ∧ list_personas 3 100 sample_db = [].
Proof.
  split.
  - apply (proj1 (list_personas_bounds 0 100 sample_db ltac:(lia))).
    simpl. lia.
  - apply (proj2 (list_personas_bounds 3 100 sample_db ltac:(lia))).
    simpl. lia.
Defined.

(** ** Create, get and delete together *)

Lemma create_persona_inr (payload : PersonaCreate) (db db' : DB) (obj : Persona) :
  create_persona payload db = (inr obj, db') →
  obj = mkPersona (next_id db) (data_of payload) ∧ db' = db ++ [obj].
Proof.
  unfold create_persona. destruct (first (filter _ db)); [done|].
  fold (data_of payload).
  destruct (insert_row (data_of payload) db) as [e|[obj1 db1]] eqn:E; [done|].
  intros [= <- <-]. by apply insert_row_inr in E as (-> & -> & _).
Qed.

Lemma first_by_id_snoc (db : DB) (obj : Persona) (i : Z) :
  (∀ p, p ∈ db → p_id p ≠ p_id obj) →
  first (filter (λ p, p_id p = i) (db ++ [obj]))
  = if decide (i = p_id obj) then Some obj
    else first (filter (λ p, p_id p = i) db).
Proof.
  intros Hfresh. rewrite filter_app. destruct (decide (i = p_id obj)) as [->|Hne].
  - assert (filter (λ p, p_id p = p_id obj) db = []) as ->.
    { apply head_None, (first_filter_None (λ p, p_id p = p_id obj)). auto. }
    by rewrite filter_cons_True.
  - rewrite (filter_cons_False _ obj) by congruence. by rewrite app_nil_r.
Qed.

Lemma create_persona_fresh_id (payload : PersonaCreate) (db db' : DB) (obj : Persona) :
  create_persona payload db = (inr obj, db') → ∀ p, p ∈ db → p_id p ≠ p_id obj.
Proof.
  intros [-> _]%create_persona_inr p Hp. simpl.
  pose proof (next_id_fresh db p Hp). lia.
Qed.

(** X4. A row that [create_persona] returned is what [get_persona] returns
    for its identifier in the new table, and the answer for every other
    identifier is what it was before the create. *)
Theorem create_then_get (payload : PersonaCreate) (db db' : DB) (obj : Persona) :
  create_persona payload db = (inr obj, db') →
  get_persona (p_id obj) db' = inr obj
  ∧ ∀ i, i ≠ p_id obj → get_persona i db' = get_persona i db.
Proof.
  intros Hc. pose proof (create_persona_fresh_id _ _ _ _ Hc) as Hfresh.
  apply create_persona_inr in Hc as [_ ->]. unfold get_persona. split.
  - by rewrite first_by_id_snoc, decide_True.
  - intros i Hi. by rewrite first_by_id_snoc, decide_False.
Qed.

Lemma create_then_get_witness :
  get_persona 4 (sample_db ++ [mkPersona 4 (data_of new_ivan)])
  = inr (mkPersona 4 (data_of new_ivan)).
Proof.
  apply (create_then_get new_ivan sample_db
           (sample_db ++ [mkPersona 4 (data_of new_ivan)])
           (mkPersona 4 (data_of new_ivan))).
  reflexivity.
Defined.

(** X5. Deleting the row that a create has just returned gives back the
    table as it was before the create. *)
Theorem create_then_delete (payload : PersonaCreate) (db db' : DB) (obj : Persona) :
  create_persona payload db = (inr obj, db') →
  delete_persona (p_id obj) db' = (inr (), db).
Proof.
  intros Hc. pose proof (create_persona_fresh_id _ _ _ _ Hc) as Hfresh.
  apply create_persona_inr in Hc as [_ ->]. unfold delete_persona.
  rewrite first_by_id_snoc, decide_True by done. f_equal.
  unfold delete_row. rewrite filter_app, filter_cons_False, app_nil_r.
  - by apply delete_row_absent.
  - intros H. by apply H.
Qed.

Lemma create_then_delete_witness :
  delete_persona 4 (sample_db ++ [mkPersona 4 (data_of new_ivan)])
  = (inr (), sample_db).
Proof.
  apply (create_then_delete new_ivan sample_db
           (sample_db ++ [mkPersona 4 (data_of new_ivan)])
           (mkPersona 4 (data_of new_ivan))).
  reflexivity.
Defined.

Lemma delete_persona_inr (i : Z) (db db' : DB) :
  delete_persona i db = (inr (), db') → db' = delete_row i db.
Proof.
  unfold delete_persona.
  destruct (first (filter _ db)) as [obj|] eqn:E; [|done].
  apply first_filter_Some in E as [_ <-]. by intros [= <-].
Qed.

Lemma first_by_id_deleted (i : Z) (db : DB) :
  first (filter (λ p, p_id p = i) (delete_row i db)) = None.
Proof.
  apply (first_filter_None (λ p, p_id p = i)).
  intros p [Hne _]%list_elem_of_filter. done.
Qed.

(** X6. Once [delete_persona] has deleted the row of an identifier, the
    identifier is gone: get, a second delete and update all raise
    [PersonaNotFoundError] and leave the table as the delete left it. *)
Theorem delete_then_not_found (i : Z) (db db' : DB) :
  delete_persona i db = (inr (), db') →
  get_persona i db' = inl PersonaNotFoundError
  ∧ delete_persona i db' = (inl PersonaNotFoundError, db')
  ∧ ∀ payload, update_persona i payload db' = (inl PersonaNotFoundError, db').
Proof.
  intros ->%delete_persona_inr.
  unfold get_persona, delete_persona, update_persona.
  by rewrite first_by_id_deleted.
Qed.

Lemma delete_then_not_found_witness :
  get_persona 2 [ana; eva] = inl PersonaNotFoundError
  ∧ delete_persona 2 [ana; eva] = (inl PersonaNotFoundError, [ana; eva])
  ∧ ∀ payload,
      update_persona 2 payload [ana; eva] = (inl PersonaNotFoundError, [ana; eva]).
Proof. apply (delete_then_not_found 2 sample_db [ana; eva]). reflexivity. Defined.

(** X7. Deleting a row frees its email: in a table with unique emails, a
    create with the email of the deleted row is accepted afterwards. *)
Theorem delete_frees_email
    (i : Z) (payload : PersonaCreate) (db db' : DB) (obj : Persona) :
  emails_unique db →
  get_persona i db = inr obj → p_email obj = Some (c_email payload) →
  delete_persona i db = (inr (), db') →
  ∃ obj', create_persona payload db' = (inr obj', db' ++ [obj']).
Proof.
  intros Hu Hget He ->%delete_persona_inr.
  unfold get_persona in Hget.
  destruct (first (filter _ db)) as [o|] eqn:E; [|done].
  injection Hget as ->. apply first_filter_Some in E as [Hobj Hid].
  eexists. apply create_persona_free.
  intros p [Hne Hp]%list_elem_of_filter Hpe.
  apply Hne. by rewrite (emails_unique_inj db p obj _ Hu Hp Hobj Hpe He).
Qed.

Lemma delete_frees_email_witness :
  ∃ obj', create_persona (mkCreate "Luisa" "Vega" "luis.vega@yahoo.com"
                            None None true None) [ana; eva]
          = (inr obj', [ana; eva] ++ [obj']).
Proof.
  apply (delete_frees_email 2 _ sample_db [ana; eva] luis).
  - apply emails_unique_NoDup. apply (bool_decide_unpack _). vm_compute. exact I.
  - reflexivity.
  - reflexivity.
  - reflexivity.
Defined.

(** ** More on update *)

Lemma update_row_ids (obj' : Persona) (db db' : DB) :
  update_row obj' db = inr db' → p_id <$> db' = p_id <$> db.
Proof.
  unfold update_row. destruct (email_conflict _ _ _); [done|].
  intros [= <-]. rewrite <- list_fmap_compose. apply list_fmap_ext.
  intros k p _. simpl. by destruct (decide _).
Qed.

(** X8. An update never changes the identifiers of the table, nor their
    order, nor the number of rows, whatever its outcome. *)
Theorem update_persona_keeps_ids (persona_id : Z) (payload : PersonaUpdate) (db : DB) :
  p_id <$> (update_persona persona_id payload db).2 = p_id <$> db
  ∧ length (update_persona persona_id payload db).2 = length db.
Proof.
  assert (H : p_id <$> (update_persona persona_id payload db).2 = p_id <$> db).
  { unfold update_persona. destruct (first (filter _ db)) as [obj|]; [|done].
    match goal with |- context [if ?b then _ else _] => destruct b end; [done|].
    destruct (update_row _ db) as [e|db'] eqn:E; [done|].
    by apply update_row_ids in E. }
  split; [done|]. by rewrite <- (length_fmap p_id), H, length_fmap.
Qed.

Lemma setattrs_setattrs (payload : PersonaUpdate) (d : PersonaData) :
  setattrs payload (setattrs payload d) = setattrs payload d.
Proof.
  unfold setattrs. simpl.
  by destruct (u_first_name payload), (u_last_name payload), (u_email payload),
    (u_phone payload), (u_birth_date payload), (u_is_active payload),
    (u_notes payload).
Qed.

Lemma setattrs_no_fields (d : PersonaData) : setattrs no_fields d = d.
Proof. by destruct d. Qed.

(** The update that the service carries out once its checks have passed. *)
Lemma update_persona_accepted
    (persona_id : Z) (payload : PersonaUpdate) (db : DB) (obj : Persona) :
  ids_unique db → emails_unique db →
  obj ∈ db → p_id obj = persona_id →
  (∀ e q, u_email payload = Some e → q ∈ db → p_id q ≠ persona_id →
          p_email q ≠ Some e) →
  let obj' := mkPersona persona_id (setattrs payload (p_data obj)) in
  update_persona persona_id payload db
  = (inr obj', (λ p, if decide (p_id p = persona_id) then obj' else p) <$> db).
Proof.
  intros Hi He Hobj <- Hfree obj'.
  unfold update_persona. rewrite (first_by_id db obj Hi Hobj).
  assert (match u_email payload with
          | Some e =>
              bool_decide (Some e ≠ p_email obj)
              && bool_decide (is_Some (first (filter
                   (λ p, p_email p = Some e ∧ p_id p ≠ p_id obj) db)))
          | None => false
          end = false) as ->.
  { destruct (u_email payload) as [e|] eqn:Eu; [|done].
    apply andb_false_iff. right. apply bool_decide_eq_false_2.
    intros (q & Hq & Hqe & Hqi)%first_filter_is_Some%Exists_exists.
    by apply (Hfree e q). }
  fold obj'. unfold update_row.
  assert (email_conflict (p_id obj') (p_email obj') db = false) as ->; [|done].
  unfold obj', p_email at 1. cbn [p_id p_data]. rewrite setattrs_email.
  destruct (u_email payload) as [e|] eqn:Eu; simpl.
  - apply email_conflict_false. intros q Hq Hqe.
    destruct (decide (p_id q = p_id obj)); [done|]. by destruct (Hfree e q).
  - fold (p_email obj). destruct (p_email obj) as [e|] eqn:Eo; [|done].
    apply email_conflict_false. intros q Hq Hqe.
    by rewrite (emails_unique_inj db q obj e He Hq Hobj Hqe Eo).
Qed.





(** X10. An accepted update is idempotent: sending the same fields again
    returns the same row and leaves the table as the first update left
    it. *)
Theorem update_persona_idempotent
    (persona_id : Z) (payload : PersonaUpdate) (db : DB) (obj : Persona) :
  ids_unique db → emails_unique db →
  obj ∈ db → p_id obj = persona_id →
  (∀ e q, u_email payload = Some e → q ∈ db → p_id q ≠ persona_id →
          p_email q ≠ Some e) →
  update_persona persona_id payload (update_persona persona_id payload db).2
  = update_persona persona_id payload db.
Proof.
  intros Hi He Hobj Hid Hfree.
  destruct (update_persona_invariants persona_id payload db Hi He) as [Hi' He'].
  rewrite (update_persona_accepted persona_id payload db obj) in * by done.
  set (obj' := mkPersona persona_id (setattrs payload (p_data obj))) in *.
  set (f := λ p : Persona, if decide (p_id p = persona_id) then obj' else p) in *.
  cbn [snd] in *.
  assert (Hobj' : obj' ∈ f <$> db).
  { apply list_elem_of_fmap. exists obj. split; [|done].
    unfold f. by rewrite decide_True. }
  rewrite (update_persona_accepted persona_id payload (f <$> db) obj'); try done.
  - cbn [p_data obj']. rewrite setattrs_setattrs. fold obj' f. f_equal.
    rewrite <- list_fmap_compose. apply list_fmap_ext. intros k p _. simpl.
    unfold f at 1. destruct (decide (p_id (f p) = persona_id)) as [Ef|Ef]; [|done].
    unfold f in *. by destruct (decide (p_id p = persona_id)).
  - intros e q Hu (q0 & -> & Hq0)%list_elem_of_fmap Hne.
    unfold f in *. destruct (decide (p_id q0 = persona_id)); [done|].
    by apply Hfree.
Qed.

Lemma update_persona_idempotent_witness :
  update_persona 2 (only_email "l.vega@yahoo.com")
    (update_persona 2 (only_email "l.vega@yahoo.com") sample_db).2
  = update_persona 2 (only_email "l.vega@yahoo.com") sample_db.
Proof.
  apply (update_persona_idempotent 2 (only_email "l.vega@yahoo.com") sample_db luis).
  - apply (bool_decide_unpack _). vm_compute. exact I.
  - apply emails_unique_NoDup. apply (bool_decide_unpack _). vm_compute. exact I.
  - apply (bool_decide_unpack _). vm_compute. exact I.
  - reflexivity.
  - intros e q [= <-] Hq _. revert q Hq. apply Forall_forall.
    apply (bool_decide_unpack _). vm_compute. exact I.
Defined.

(** X11. An update that sets no field returns the row as it is and leaves
    the table as it was. *)
Theorem update_persona_no_fields (persona_id : Z) (db : DB) (obj : Persona) :
  ids_unique db → emails_unique db →
  obj ∈ db → p_id obj = persona_id →
  update_persona persona_id no_fields db = (inr obj, db).
Proof.
  intros Hi He Hobj Hid.
  rewrite (update_persona_accepted persona_id no_fields db obj) by done.
  rewrite setattrs_no_fields.
  assert (mkPersona persona_id (p_data obj) = obj) as ->
    by (destruct obj; simpl in *; congruence).
  f_equal. rewrite <- (list_fmap_id db) at 2. apply list_fmap_ext.
  intros k p Hp%list_elem_of_lookup_2. simpl.
  destruct (decide (p_id p = persona_id)); [|done].
  apply (ids_unique_inj db); auto. congruence.
Qed.

Lemma update_persona_no_fields_witness :
  update_persona 3 no_fields sample_db = (inr eva, sample_db).
Proof.
  apply (update_persona_no_fields 3 sample_db eva).
  - apply (bool_decide_unpack _). vm_compute. exact I.
  - apply emails_unique_NoDup. apply (bool_decide_unpack _). vm_compute. exact I.
  - apply (bool_decide_unpack _). vm_compute. exact I.
  - reflexivity.
Defined.

(** ** More on the bulk populate *)

Lemma insert_all_error (objs : list PersonaData) (db : DB) (e : error) :
  insert_all objs db = inl e → e = IntegrityError.
Proof.
  revert db. induction objs as [|d ds IH]; simpl; intros db; [done|].
  destruct (insert_row d db) as [e'|[obj db1]] eqn:E; [|by apply IH].
  intros [= <-]. by eapply insert_row_error.
Qed.

Lemma poblar_personas_outcome
    (lower : string → string) (fake : nat → Fake) (cantidad : Z) (db : DB) :
  poblar_personas lower fake cantidad db = (inl IntegrityError, db)
  ∨ ∃ rows,
      poblar_personas lower fake cantidad db
      = (inr (Z.max 0 cantidad), db ++ rows)
      ∧ p_data <$> rows
        = (λ i, fake_persona lower (fake i)) <$> seq 0 (Z.to_nat cantidad).
Proof.
  unfold poblar_personas. rewrite registros_fmap, app_nil_l.
  destruct (insert_all _ db) as [e|db'] eqn:E.
  - left. by rewrite (insert_all_error _ _ _ E).
  - right. destruct (insert_all_inr _ _ _ E) as (rows & -> & Hrows).
    exists rows. split; [|done]. f_equal. f_equal.
    rewrite length_fmap, length_seq. lia.
Qed.

(** X12. [poblar_personas] inserts all the generated rows or none: either
    it raises [IntegrityError], the only exception it can raise, and the
    table is as it was, or it returns the count and the table is the old
    one followed by exactly that many new rows, which hold the generated
    data in the order of generation. *)
Theorem poblar_personas_all_or_nothing
    (lower : string → string) (fake : nat → Fake) (cantidad : Z) (db : DB) :
  poblar_personas lower fake cantidad db = (inl IntegrityError, db)
  ∨ ∃ rows,
      poblar_personas lower fake cantidad db
      = (inr (Z.max 0 cantidad), db ++ rows)
      ∧ Z.of_nat (length rows) = Z.max 0 cantidad
      ∧ p_data <$> rows
        = (λ i, fake_persona lower (fake i)) <$> seq 0 (Z.to_nat cantidad).
Proof.
  destruct (poblar_personas_outcome lower fake cantidad db)
    as [Herr|(rows & Hok & Hrows)]; [by left|].
  right. exists rows. split; [done|]. split; [|done].
  rewrite <- (length_fmap p_data), Hrows, length_fmap, length_seq. lia.
Qed.

(** X13. With a count of zero or less the loop does not run:
    [poblar_personas] returns 0 and the table is unchanged. *)
Theorem poblar_personas_nothing_to_do
    (lower : string → string) (fake : nat → Fake) (cantidad : Z) (db : DB) :
  cantidad ≤ 0 → poblar_personas lower fake cantidad db = (inr 0, db).
Proof.
  intros Hc. unfold poblar_personas.
  assert (Z.to_nat cantidad = 0%nat) as -> by lia.
  reflexivity.
Qed.

Lemma poblar_personas_nothing_to_do_witness :
  poblar_personas lower_ascii fake_const (-5) sample_db = (inr 0, sample_db).
Proof. apply poblar_personas_nothing_to_do. lia. Defined.

(** X14. Every row that [poblar_personas] inserts comes from one iteration
    of the loop: it has the generated names, a phone, the generated birth
    date, and the email made of the lowered names joined by a dot, an
    ['@'] and one of the four domains. *)
Theorem poblar_personas_rows
    (lower : string → string) (fake : nat → Fake) (cantidad n : Z)
    (db db' : DB) (row : Persona) :
  poblar_personas lower fake cantidad db = (inr n, db') →
  row ∈ drop (length db) db' →
  ∃ i dominio, (i < Z.to_nat cantidad)%nat
    ∧ dominio ∈ dominios_validos
    ∧ first_name (p_data row) = fk_first_name (fake i)
    ∧ last_name (p_data row) = fk_last_name (fake i)
    ∧ p_email row
      = Some (lower (fk_first_name (fake i)) +:+ "." +:+
              lower (fk_last_name (fake i)) +:+ "@" +:+ dominio)
    ∧ phone (p_data row) = Some (fk_phone_number (fake i))
    ∧ p_birth_date row = Some (fk_date_of_birth (fake i)).
Proof.
  intros Hp Hrow.
  destruct (poblar_personas_outcome lower fake cantidad db)
    as [Herr|(rows & Hok & Hrows)]; [congruence|].
  rewrite Hok in Hp. injection Hp as _ <-.
  rewrite drop_app_length in Hrow.
  apply (list_elem_of_fmap_2 p_data) in Hrow. rewrite Hrows in Hrow.
  apply list_elem_of_fmap in Hrow as (i & Hdata & Hi%elem_of_seq).
  destruct (fake_persona_email lower (fake i)) as (dominio & Hdom & He & Hb).
  exists i, dominio. unfold p_email, p_birth_date. rewrite Hdata.
  split; [lia|]. by repeat split.
Qed.

Lemma poblar_personas_rows_witness :
  ∃ i dominio, (i < Z.to_nat 3)%nat
    ∧ dominio ∈ dominios_validos
    ∧ first_name (p_data (mkPersona 5 (fake_persona lower_ascii (fake_fresh 1))))
      = fk_first_name (fake_fresh i)
    ∧ last_name (p_data (mkPersona 5 (fake_persona lower_ascii (fake_fresh 1))))
      = fk_last_name (fake_fresh i)
    ∧ p_email (mkPersona 5 (fake_persona lower_ascii (fake_fresh 1)))
      = Some (lower_ascii (fk_first_name (fake_fresh i)) +:+ "." +:+
              lower_ascii (fk_last_name (fake_fresh i)) +:+ "@" +:+ dominio)
    ∧ phone (p_data (mkPersona 5 (fake_persona lower_ascii (fake_fresh 1))))
      = Some (fk_phone_number (fake_fresh i))
    ∧ p_birth_date (mkPersona 5 (fake_persona lower_ascii (fake_fresh 1)))
      = Some (fk_date_of_birth (fake_fresh i)).
Proof.
  apply (poblar_personas_rows lower_ascii fake_fresh 3 3 sample_db
           (poblar_personas lower_ascii fake_fresh 3 sample_db).2).
  - reflexivity.
  - apply (bool_decide_unpack _). vm_compute. exact I.
Defined.

(** X15. The endpoint refuses a count outside 1..1000 with status 400
    before it touches the table; for a count inside the range it either
    lets the [IntegrityError] of the service through, with the table
    unchanged, or answers with [inserted_count] equal to the count asked
    for, the table having grown by that many rows. *)
Theorem poblar_personas_endpoint_range
    (lower : string → string) (fake : nat → Fake) (cantidad : Z) (db : DB) :
  (cantidad ≤ 0 ∨ 1000 < cantidad →
     poblar_personas_endpoint lower fake cantidad db
     = (HTTPException 400
          "La cantidad debe ser mayor a 0 y menor o igual a 1000.", db))
  ∧ (1 ≤ cantidad ≤ 1000 →
     poblar_personas_endpoint lower fake cantidad db = (Raised IntegrityError, db)
     ∨ ∃ rows msg,
         poblar_personas_endpoint lower fake cantidad db
         = (Returned (mkPoblarResponse msg cantidad), db ++ rows)
         ∧ Z.of_nat (length rows) = cantidad).
Proof.
  unfold poblar_personas_endpoint. split.
  - intros Hout.
    assert ((cantidad <=? 0) || (cantidad >? 1000) = true) as -> by lia. done.
  - intros Hin.
    assert ((cantidad <=? 0) || (cantidad >? 1000) = false) as -> by lia.
    destruct (poblar_personas_outcome lower fake cantidad db)
      as [->|(rows & -> & Hrows)]; [by left|].
    right. exists rows. eexists. rewrite Z.max_r by lia. split; [done|].
    rewrite <- (length_fmap p_data), Hrows, length_fmap, length_seq. lia.
Qed.

Lemma poblar_personas_endpoint_range_witness :
  poblar_personas_endpoint lower_ascii fake_fresh 1001 sample_db
  = (HTTPException 400
       "La cantidad debe ser mayor a 0 y menor o igual a 1000.", sample_db)
  ∧ (poblar_personas_endpoint lower_ascii fake_fresh 3 sample_db
     = (Raised IntegrityError, sample_db)
     ∨ ∃ rows msg,
         poblar_personas_endpoint lower_ascii fake_fresh 3 sample_db
         = (Returned (mkPoblarResponse msg 3), sample_db ++ rows)
         ∧ Z.of_nat (length rows) = 3).
Proof.
  split.
  - apply (proj1 (poblar_personas_endpoint_range lower_ascii fake_fresh 1001
                    sample_db)). lia.
  - apply (proj2 (poblar_personas_endpoint_range lower_ascii fake_fresh 3
                    sample_db)). lia.
Defined.

(** ** More on the domain statistics *)

Lemma get_stats_dominios_lookup (db : DB) (d : string) :
  default 0 (get_stats_dominios db !! d) = Z.of_nat (count_dominio d db).
Proof.
  unfold get_stats_dominios. rewrite get_stats_dominios_fold, lookup_empty.
  destruct (decide _) as [->|]; simpl; [done|lia].
Qed.

(** X16. The statistics of two tables put together are the sums of their
    statistics: for every domain, the count over [db1 ++ db2] is the count
    over [db1] plus the count over [db2] (an absent key counting as 0). *)
Theorem get_stats_dominios_app (db1 db2 : DB) (d : string) :
  default 0 (get_stats_dominios (db1 ++ db2) !! d)
  = default 0 (get_stats_dominios db1 !! d)
    + default 0 (get_stats_dominios db2 !! d).
Proof.
  rewrite !get_stats_dominios_lookup. unfold count_dominio.
  rewrite filter_app, length_app. lia.
Qed.

(** X17. The statistics do not depend on the order of the rows. *)
Theorem get_stats_dominios_permutation (db1 db2 : DB) :
  db1 ≡ₚ db2 → get_stats_dominios db1 = get_stats_dominios db2.
Proof.
  intros Hperm. apply map_eq. intros d.
  unfold get_stats_dominios. rewrite !get_stats_dominios_fold.
  assert (count_dominio d db1 = count_dominio d db2) as ->; [|done].
  unfold count_dominio. by rewrite Hperm.
Qed.

Lemma get_stats_dominios_permutation_witness :
  get_stats_dominios [ana; luis; eva] = get_stats_dominios [eva; ana; luis].
Proof.
  apply get_stats_dominios_permutation.
  change [eva; ana; luis] with ([eva] ++ [ana; luis]).
  change [ana; luis; eva] with ([ana; luis] ++ [eva]).
  apply Permutation_app_comm.
Defined.

(** X18. Every count in the mapping is at least 1 and at most the number
    of rows of the table. *)
Theorem get_stats_dominios_bounds (db : DB) (d : string) (n : Z) :
  get_stats_dominios db !! d = Some n → 1 ≤ n ≤ Z.of_nat (length db).
Proof.
  unfold get_stats_dominios. rewrite get_stats_dominios_fold, lookup_empty.
  destruct (decide _) as [|Hne]; [done|]. simpl. intros [= <-].
  pose proof (length_filter (λ p, p_email p ≫= segment_after_at = Some d) db).
  unfold count_dominio in *. lia.
Qed.

Lemma get_stats_dominios_bounds_witness : 1 ≤ 2 ≤ Z.of_nat (length sample_db).
Proof.
  apply (get_stats_dominios_bounds sample_db "gmail.com" 2). by vm_compute.
Defined.

Lemma total_insert (m : gmap string Z) (d : string) :
  total (<[d := default 0 (m !! d) + 1]> m) = total m + 1.
Proof.
  unfold total. destruct (m !! d) as [v|] eqn:E; simpl.
  - rewrite <- insert_delete_eq.
    rewrite map_fold_insert_L; [|intros; lia|apply lookup_delete_eq].
    rewrite (map_fold_delete_L _ 0 d v m); [lia|intros; lia|done].
  - rewrite map_fold_insert_L; [lia|intros; lia|done].
Qed.

(** X19. The counts add up to the number of rows that have a domain, that
    is, the rows whose email holds an ['@']; the other rows are counted
    nowhere. *)
Theorem get_stats_dominios_total (db : DB) :
  total (get_stats_dominios db)
  = Z.of_nat (length (filter (λ p, is_Some (p_email p ≫= segment_after_at)) db)).
Proof.
  induction db as [|p db IH] using rev_ind; [done|].
  unfold get_stats_dominios in *. rewrite foldl_app, filter_app, length_app.
  cbn [foldl]. destruct (dominio_de p) as [x|d] eqn:E.
  - rewrite IH, filter_cons_False; [simpl; lia|].
    intros [d Hd]. apply dominio_de_inr in Hd. congruence.
  - rewrite total_insert, IH, filter_cons_True; [simpl; lia|].
    apply dominio_de_inr in E. by rewrite E.
Qed.

(** X20. Inside the [try] block, [AttributeError] is raised exactly for a
    row without an email and [IndexError] exactly for an email without an
    ['@']; every other row yields a domain. *)
Theorem dominio_de_exceptions (p : Persona) :
  (dominio_de p = inl AttributeError ↔ p_email p = None)
  ∧ (dominio_de p = inl IndexError
     ↔ ∃ e, p_email p = Some e ∧ count_at e = 0%nat)
  ∧ ((∃ d, dominio_de p = inr d)
     ↔ ∃ e, p_email p = Some e ∧ count_at e ≠ 0%nat).
Proof.
  unfold dominio_de. destruct (p_email p) as [e|].
  - rewrite split_at_1. destruct (segment_after_at e) as [d|] eqn:S.
    + assert (Hne : count_at e ≠ 0%nat).
      { intros H0%segment_after_at_None. congruence. }
      split; [split; discriminate|]. split.
      * split; [discriminate|]. intros (e' & [= <-] & H0). contradiction.
      * split; intros _; eauto.
    + apply segment_after_at_None in S.
      split; [split; discriminate|]. split.
      * split; eauto.
      * split; [intros [d Hd]; discriminate|].
        intros (e' & [= <-] & Hne). contradiction.
  - split; [done|]. split.
    + split; [discriminate|]. intros (e & He & _). discriminate.
    + split; [intros [d Hd]; discriminate|]. intros (e & He & _). discriminate.
Qed.

(** ** More on the age statistics *)

Lemma get_stats_edad_ages (hoy : date) (db : DB) :
  get_stats_edad hoy db
  = match ages hoy db with
    | [] => mkStats 0 0 0
    | a :: rest =>
        mkStats (py_sum (a :: rest) `div` Z.of_nat (length (a :: rest)))
          (py_min (a :: rest)) (py_max (a :: rest))
    end.
Proof.
  unfold get_stats_edad. rewrite edades_de_ages.
  destruct db as [|p db]; [done|]. by destruct (ages hoy (p :: db)).
Qed.

Lemma sum_bounds (lo hi : Z) (l : list Z) :
  Forall (λ a, lo ≤ a) l → Forall (λ a, a ≤ hi) l →
  lo * Z.of_nat (length l) ≤ foldr Z.add 0 l ≤ hi * Z.of_nat (length l).
Proof.
  induction 1 as [|a l Ha _ IH]; intros Hhi; simpl; [lia|].
  apply Forall_cons in Hhi as [Hb Hhi]. specialize (IH Hhi). lia.
Qed.

(** X21. The three values are always in order: the minimum is at most the
    average and the average at most the maximum. *)
Theorem get_stats_edad_ordered (hoy : date) (db : DB) :
  edad_minima (get_stats_edad hoy db) ≤ edad_promedio (get_stats_edad hoy db)
  ∧ edad_promedio (get_stats_edad hoy db) ≤ edad_maxima (get_stats_edad hoy db).
Proof.
  rewrite get_stats_edad_ages. destruct (ages hoy db) as [|a rest]; [done|].
  cbn [edad_promedio edad_minima edad_maxima py_min py_max].
  rewrite py_sum_foldr.
  destruct (foldl_min_least rest a) as [_ Hle].
  destruct (foldl_max_greatest rest a) as [_ Hge].
  pose proof (sum_bounds _ _ _ Hle Hge) as [Hlo Hhi].
  assert (0 < Z.of_nat (length (a :: rest))) by (simpl; lia).
  split.
  - apply Z.div_le_lower_bound; lia.
  - apply Z.div_le_upper_bound; lia.
Qed.

Lemma ages_filter_dated (hoy : date) (db : DB) :
  ages hoy (filter (λ p, is_Some (p_birth_date p)) db) = ages hoy db.
Proof.
  unfold ages. induction db as [|p db IH]; [done|].
  destruct (p_birth_date p) as [b|] eqn:E.
  - rewrite filter_cons_True by (rewrite E; eauto).
    cbn [omap list_omap]. by rewrite IH.
  - rewrite filter_cons_False by (rewrite E; by intros [? ?]).
    cbn [omap list_omap]. by rewrite E.
Qed.

(** X22. Rows without a birth date have no effect on the statistics:
    they are the statistics of the rows that have one. *)
Theorem get_stats_edad_ignores_undated (hoy : date) (db : DB) :
  get_stats_edad hoy (filter (λ p, is_Some (p_birth_date p)) db)
  = get_stats_edad hoy db.
Proof. by rewrite !get_stats_edad_ages, ages_filter_dated. Qed.

(** X23. The age computed at line 90 is negative exactly when the birth
    date lies after the current date, so a row born in the future brings a
    negative age into the statistics. *)
Theorem edad_negative_iff (hoy b : date) : edad hoy b < 0 ↔ date_lt hoy b.
Proof.
  unfold edad, date_lt.
  destruct (tuple_lt _ _) eqn:E.
  - apply tuple_lt_precedes in E. unfold precedes in E. lia.
  - assert (¬ precedes hoy b) as Hn.
    { intros H%tuple_lt_precedes. congruence. }
    unfold precedes in Hn. lia.
Qed.

(** ** More on search *)

Section like_self.
Variable chr_eq : ascii → ascii → bool.
Hypothesis chr_eq_refl : ∀ c, chr_eq c c = true.

Lemma like_self_percent (t : string) : like chr_eq (t +:+ "%") t = true.
Proof.
  induction t as [|c t IH]; [done|].
  change (String c t +:+ "%") with (String c (t +:+ "%")).
  destruct (Ascii.eqb c "%") eqn:Ep.
  - apply Ascii.eqb_eq in Ep as ->.
    rewrite like_percent_unfold, (like_percent_unfold _ _ t), IH.
    by rewrite orb_true_r.
  - simpl. rewrite Ep. destruct (Ascii.eqb c "_"); [done|].
    by rewrite chr_eq_refl, IH.
Qed.

Lemma like_self (t : string) : like chr_eq ("%" +:+ t +:+ "%") t = true.
Proof.
  change ("%" +:+ t +:+ "%") with (String "%" (t +:+ "%")).
  by rewrite like_percent_unfold, like_self_percent.
Qed.
End like_self.

(** X24. With a comparison of characters that holds between a character
    and itself, searching for the whole first name, last name or email of
    a row of the table finds that row, also when the text holds a [%] or
    an underscore. *)
Theorem search_personas_finds_own_field
    (chr_eq : ascii → ascii → bool) (db : DB) (p : Persona) :
  (∀ c, chr_eq c c = true) →
  p ∈ db →
  p ∈ search_personas chr_eq (first_name (p_data p)) db
  ∧ p ∈ search_personas chr_eq (last_name (p_data p)) db
  ∧ ∀ e, p_email p = Some e → p ∈ search_personas chr_eq e db.
Proof.
  intros Hrefl Hp. unfold search_personas, search_cond, sql_contains.
  split; [|split]; [| |intros e He; rewrite ?He];
    apply list_elem_of_filter; (split; [|done]);
    cbn [fmap option_fmap option_map].
  - by rewrite like_self.
  - rewrite (like_self chr_eq Hrefl (last_name (p_data p))).
    by destruct (like chr_eq _ (first_name (p_data p))), (p_email p).
  - rewrite He. cbn [fmap option_fmap option_map]. rewrite like_self by done.
    by destruct (like chr_eq _ (first_name (p_data p))),
      (like chr_eq _ (last_name (p_data p))).
Qed.

Lemma search_personas_finds_own_field_witness :
  luis ∈ search_personas chr_eq_exact (first_name (p_data luis)) sample_db
  ∧ luis ∈ search_personas chr_eq_exact (last_name (p_data luis)) sample_db
  ∧ ∀ e, p_email luis = Some e → luis ∈ search_personas chr_eq_exact e sample_db.
Proof.
  apply (search_personas_finds_own_field chr_eq_exact sample_db luis).
  - intros c. apply Ascii.eqb_refl.
  - apply (bool_decide_unpack _). vm_compute. exact I.
Defined.

(** ** Tables the service can build *)

(** X25. Whatever operations are run, in whatever order, starting from the
    empty table, the table never holds two rows with the same identifier
    nor two rows with the same email. *)
Theorem reachable_invariants (lower : string → string) (os : list op) :
  ids_unique (foldl (λ db o, run lower o db) [] os)
  ∧ emails_unique (foldl (λ db o, run lower o db) [] os).
Proof.
  assert (H : ∀ db, ids_unique db → emails_unique db →
              ids_unique (foldl (λ db o, run lower o db) db os)
              ∧ emails_unique (foldl (λ db o, run lower o db) db os)).
  { induction os as [|o os IH]; [done|]. intros db Hi He. simpl.
    destruct (run_invariants lower o db Hi He). by apply IH. }
  apply H; [constructor|]. intros i j p q e Hp. by rewrite lookup_nil in Hp.
Qed.

(** ** The split at ['@'] *)

(** X26. Splitting at ['@'] loses nothing: joining the parts with ['@']
    gives the string back, and there is one part more than there are
    ['@'] in the string, so element 1 exists exactly when there is one. *)
Theorem split_join_at (s : string) :
  join_at (split "@" s) = s
  ∧ length (split "@" s) = S (count_at s).
Proof.
  induction s as [|c s [IHj IHl]]; [done|]. simpl.
  destruct (Ascii.eqb c "@") eqn:E.
  - apply Ascii.eqb_eq in E as ->.
    destruct (split "@" s) as [|w ws]; [done|].
    split; [by rewrite <- IHj|]. simpl in *. lia.
  - destruct (split "@" s) as [|w ws]; [done|].
    split; [|simpl in *; lia]. rewrite <- IHj. by destruct ws.
Qed.
